(** * The block store of btrdb: an embedding of [internal/bstore/blockstore.go]

    The Go package keeps, per stream, a chain of superblocks ("generations"),
    hands out temporary block addresses through a channel fed by a goroutine,
    and publishes a new generation by writing its superblock and then moving
    the stream's version.  The definitions below follow [blockstore.go]
    function by function; what that file only calls (superblock codec,
    [LinkAndStore], the cache, the block decoders, the storage provider) is
    either modelled from the specification or taken as a field of the class
    [Externals]. *)

From Stdlib Require Import ZArith List Lia String Sorted.
From stdpp Require Import base option list gmap.
Import ListNotations.

Local Open Scope Z_scope.

(** ** Machine integers *)

(** A Go [uint64] is a [Z] in [0, 2^64); arithmetic wraps. *)
Definition U64_MOD : Z := 2 ^ 64.
Definition wrap64 (z : Z) : Z := z mod U64_MOD.
Definition is_u64 (z : Z) : Prop := 0 <= z < U64_MOD.

(** [const LatestGeneration = uint64(^(uint64(0)))] *)
Definition LatestGeneration : Z := wrap64 (Z.lnot 0).

(** ** Plain data *)

(** A stream identifier: 128 opaque bits. *)
Definition UUID : Type := N.
(** A byte slice; a nil slice and an empty one are both [[]]. *)
Definition bytes : Type := list Z.

(** The reasons for which the package aborts instead of returning.  The
    first three are the [lg.Panic] sites of [blockstore.go]:
    "superblock ... does not exist" / "should exist (but doesn't)",
    "Could not obtain root address", "Strange datablock type". *)
Inductive failure : Type :=
| CorruptSuperblock
| RootResolutionFailure
| CorruptBlockType
| CorruptSuperblockRecord
| UnlockOfUnlockedMutex.

(** [errors.New(msg)] *)
Inductive error : Type := errors_New (msg : string).
Definition AlreadyFlushed : error := errors_New "Already Flushed".

(** What a call does to the state [S] it runs on: it returns, it aborts
    (the state reached so far stays as it is), or it waits on a mutex that
    nobody releases in a sequential run. *)
Inductive outcome (S A : Type) : Type :=
| Done (a : A) (s : S)
| Fatal (why : failure) (s : S)
| Blocked (s : S).
Arguments Done {S A} a s.
Arguments Fatal {S A} why s.
Arguments Blocked {S A} s.

Definition M (S A : Type) : Type := S -> outcome S A.
Definition ret {S A} (a : A) : M S A := fun s => Done a s.
Definition bind {S A B} (m : M S A) (k : A -> M S B) : M S B :=
  fun s => match m s with
           | Done a s' => k a s'
           | Fatal why s' => Fatal why s'
           | Blocked s' => Blocked s'
           end.
Definition panic {S A} (why : failure) : M S A := fun s => Fatal why s.
Definition get {S} : M S S := fun s => Done s s.
Definition modify {S} (f : S -> S) : M S unit := fun s => Done tt (f s).

Notation "'let!' x ':=' m 'in' k" := (bind m (fun x => k))
  (at level 10, x name, m at level 100, k at level 200).
Notation "'run!' m 'in' k" := (bind m (fun _ => k))
  (at level 10, m at level 100, k at level 200).

(** ** Superblocks *)

Record Superblock : Type := mkSuperblock {
  sb_uuid : UUID;
  sb_gen : Z;
  sb_root : Z
}.

(** Modelled from the spec: [NewSuperblock] is not in [blockstore.go].
    "new(stream_id): generation 1, root unset." *)
Definition NewSuperblock (id : UUID) : Superblock :=
  {| sb_uuid := id; sb_gen := 1; sb_root := 0 |}.

(** Modelled from the spec: [CloneInc] is not in [blockstore.go].
    "clone_incremented(): copies all fields, increments generation number,
    leaves root to be overwritten." *)
Definition CloneInc (s : Superblock) : Superblock :=
  {| sb_uuid := sb_uuid s; sb_gen := wrap64 (sb_gen s + 1); sb_root := sb_root s |}.

(** ** Blocks *)

Record Coreblock : Type := mkCoreblock {
  cb_Identifier : Z;
  cb_Generation : Z;
  cb_PointWidth : Z;
  cb_StartTime : Z;
  cb_payload : bytes
}.

Record Vectorblock : Type := mkVectorblock {
  vb_Identifier : Z;
  vb_Generation : Z;
  vb_PointWidth : Z;
  vb_StartTime : Z;
  vb_payload : bytes
}.

(** The Go zero values [&Coreblock{}] and [&Vectorblock{}]. *)
Definition zero_Coreblock : Coreblock := mkCoreblock 0 0 0 0 [].
Definition zero_Vectorblock : Vectorblock := mkVectorblock 0 0 0 0 [].

(** The interface [Datablock] has the two implementations. *)
Inductive Datablock : Type :=
| OfCore (c : Coreblock)
| OfVector (v : Vectorblock).

Definition db_Identifier (d : Datablock) : Z :=
  match d with OfCore c => cb_Identifier c | OfVector v => vb_Identifier v end.
Definition db_Generation (d : Datablock) : Z :=
  match d with OfCore c => cb_Generation c | OfVector v => vb_Generation v end.
Definition db_PointWidth (d : Datablock) : Z :=
  match d with OfCore c => cb_PointWidth c | OfVector v => vb_PointWidth v end.
Definition db_StartTime (d : Datablock) : Z :=
  match d with OfCore c => cb_StartTime c | OfVector v => vb_StartTime v end.

(** The type discriminant of a stored payload. *)
Inductive BlockType : Type := Core | Vector | Bad.

(** ** The storage provider *)

(** The calls that change what a reader of superblocks can see, in the
    order the provider received them. *)
Inductive ProviderCall : Type :=
| CallWriteSuperBlock (id : UUID) (gen : Z) (buf : bytes)
| CallSetStreamVersion (id : UUID) (gen : Z).

(** Modelled from the spec: the providers ([fileprovider], [cephprovider])
    are not in [blockstore.go].  "Persisted layout: one superblock record
    per (stream_id, generation_number), plus a latest version index per
    stream, plus a flat address space of block payloads."  [calls] is a
    ghost journal and is read by no operation. *)
Record Provider : Type := mkProvider {
  versions : gmap UUID Z;
  superblocks : gmap (UUID * Z) bytes;
  payloads : gmap (UUID * Z) bytes;
  calls : list ProviderCall
}.

(** "get_stream_version(stream_id) -> generation_number (0 => stream has no
    committed generation yet)" *)
Definition GetStreamVersion (p : Provider) (id : UUID) : Z :=
  default 0 (versions p !! id).

Definition SetStreamVersion (id : UUID) (gen : Z) (p : Provider) : Provider :=
  {| versions := <[id := gen]> (versions p);
     superblocks := superblocks p;
     payloads := payloads p;
     calls := calls p ++ [CallSetStreamVersion id gen] |}.

(** "read_superblock(stream_id, generation_number, buffer) -> bytes | nil" *)
Definition ReadSuperBlock (p : Provider) (id : UUID) (gen : Z) : option bytes :=
  superblocks p !! (id, gen).

Definition WriteSuperBlock (id : UUID) (gen : Z) (buf : bytes) (p : Provider) : Provider :=
  {| versions := versions p;
     superblocks := <[(id, gen) := buf]> (superblocks p);
     payloads := payloads p;
     calls := calls p ++ [CallWriteSuperBlock id gen buf] |}.

(** "read(stream_id, address, buffer) -> bytes; malformed/absent -> nil" *)
Definition Read (p : Provider) (id : UUID) (addr : Z) : bytes :=
  default [] (payloads p !! (id, addr)).

Definition with_payloads (pl : gmap (UUID * Z) bytes) (p : Provider) : Provider :=
  {| versions := versions p;
     superblocks := superblocks p;
     payloads := pl;
     calls := calls p |}.

(** ** The block cache *)

(** Modelled from the spec: [cacheGet], [cachePut] and [initCache] are not
    in [blockstore.go]; the fields are those of [BlockStore].  "A mapping
    from address to entry plus a doubly linked ordering from most- to
    least-recently-used": the entries are kept most recent first. *)
Record Cache : Type := mkCache {
  cacheitems : list (Z * Datablock);
  cachemax : Z;
  cachemiss : Z;
  cachehit : Z
}.

Definition cachelen (c : Cache) : Z := Z.of_nat (length (cacheitems c)).

Definition initCache (size : Z) : Cache :=
  {| cacheitems := []; cachemax := size; cachemiss := 0; cachehit := 0 |}.

Fixpoint cache_find (addr : Z) (l : list (Z * Datablock)) : option Datablock :=
  match l with
  | [] => None
  | (a, d) :: l' => if Z.eqb a addr then Some d else cache_find addr l'
  end.

Definition cache_remove (addr : Z) (l : list (Z * Datablock)) : list (Z * Datablock) :=
  List.filter (fun e => negb (Z.eqb (fst e) addr)) l.

(** "get on a hit relinks the entry to the most-recently-used end and
    increments the hit counter; on a miss it increments the miss counter
    and returns absence." *)
Definition cacheGet (addr : Z) (c : Cache) : option Datablock * Cache :=
  match cache_find addr (cacheitems c) with
  | Some d =>
      (Some d, {| cacheitems := (addr, d) :: cache_remove addr (cacheitems c);
                  cachemax := cachemax c;
                  cachemiss := cachemiss c;
                  cachehit := wrap64 (cachehit c + 1) |})
  | None =>
      (None, {| cacheitems := cacheitems c;
                cachemax := cachemax c;
                cachemiss := wrap64 (cachemiss c + 1);
                cachehit := cachehit c |})
  end.

(** "put inserts at the most-recently-used end; if the entry count exceeds
    the configured maximum, the least-recently-used entry is evicted." *)
Definition cachePut (addr : Z) (d : Datablock) (c : Cache) : Cache :=
  let items := (addr, d) :: cache_remove addr (cacheitems c) in
  {| cacheitems := if Z.of_nat (length items) <=? cachemax c
                   then items else removelast items;
     cachemax := cachemax c;
     cachemiss := cachemiss c;
     cachehit := cachehit c |}.

(** ** What [blockstore.go] calls and does not define *)

(** The constant [RELOCATION_BASE], the superblock record format, the block
    decoders and [LinkAndStore] live in other files of the package.
    [uint64(RELOCATION_BASE)] compiles only for a constant that fits in 64
    bits; the properties of the allocator take this as a hypothesis.
    [LinkAndStore] writes block payloads and may fill the cache; by its type
    here it reaches neither the superblock records nor the version index,
    which [blockstore.go] writes itself. *)
Class Externals : Type := {
  RELOCATION_BASE : Z;
  Serialize : Superblock -> bytes;
  record_matches : UUID -> Z -> bytes -> bool;
  record_root : bytes -> Z;
  LinkAndStore :
    UUID -> Cache -> gmap (UUID * Z) bytes -> list Vectorblock -> list Coreblock ->
    gmap Z Z * Cache * gmap (UUID * Z) bytes;
  DatablockGetBufferType : bytes -> BlockType;
  Coreblock_Deserialize : Coreblock -> bytes -> Coreblock;
  Vectorblock_Deserialize : Vectorblock -> bytes -> Vectorblock
}.

(** ** The address allocator *)

(** The goroutine started by [NewBlockStore] and the channel it feeds:
    [relocation_addr] is the goroutine's local variable, [alloc_chan] the
    buffer of [make(chan uint64, 256)], oldest value first. *)
Record Alloc : Type := mkAlloc {
  relocation_addr : Z;
  alloc_chan : list Z
}.

Definition ALLOC_CAP : nat := 256.

Section WithExternals.
Context `{Ext : Externals}.

(** [relocation_addr += 1; if relocation_addr < RELOCATION_BASE
    { relocation_addr = RELOCATION_BASE }] *)
Definition next_relocation_addr (a : Z) : Z :=
  let a' := wrap64 (a + 1) in
  if a' <? RELOCATION_BASE then RELOCATION_BASE else a'.

Definition alloc_init : Alloc :=
  {| relocation_addr := RELOCATION_BASE; alloc_chan := [] |}.

(** One scheduling step: the goroutine sends (there is room in the buffer)
    or a caller of [allocateBlock] receives the oldest value. *)
Inductive alloc_step : Alloc -> option Z -> Alloc -> Prop :=
| step_send (al : Alloc) :
    (length (alloc_chan al) < ALLOC_CAP)%nat ->
    alloc_step al None
      {| relocation_addr := next_relocation_addr (relocation_addr al);
         alloc_chan := alloc_chan al ++ [relocation_addr al] |}
| step_recv (r a : Z) (q : list Z) :
    alloc_step {| relocation_addr := r; alloc_chan := a :: q |} (Some a)
               {| relocation_addr := r; alloc_chan := q |}.

(** A run of the two parties, with the addresses received in order. *)
Inductive alloc_run : Alloc -> list Z -> Alloc -> Prop :=
| run_nil (al : Alloc) : alloc_run al [] al
| run_send (al al' al'' : Alloc) (got : list Z) :
    alloc_step al None al' -> alloc_run al' got al'' -> alloc_run al got al''
| run_recv (al al' al'' : Alloc) (a : Z) (got : list Z) :
    alloc_step al (Some a) al' -> alloc_run al' got al'' ->
    alloc_run al (a :: got) al''.

(** The values the goroutine sends, from counter [a] on. *)
Fixpoint sent_from (a : Z) (n : nat) : list Z :=
  match n with
  | O => []
  | S n' => a :: sent_from (next_relocation_addr a) n'
  end.

(** [relocation_address := <-bs.alloc] for a single caller: the oldest
    buffered value, and when the buffer is empty the value the goroutine
    sends next. *)
Definition receive (al : Alloc) : Z * Alloc :=
  match alloc_chan al with
  | a :: q => (a, {| relocation_addr := relocation_addr al; alloc_chan := q |})
  | [] => (relocation_addr al,
           {| relocation_addr := next_relocation_addr (relocation_addr al);
              alloc_chan := [] |})
  end.

(** ** The block store *)

(** [_wlocks] maps a stream to its mutex ([true]: locked).  [glock] and
    [cachemtx] are taken and released inside each call and have no state
    between calls. *)
Record BlockStore : Type := mkBlockStore {
  _wlocks : gmap UUID bool;
  cache : Cache;
  store : Provider;
  alloc : Alloc
}.

Definition set_wlocks (f : gmap UUID bool -> gmap UUID bool) (bs : BlockStore) : BlockStore :=
  {| _wlocks := f (_wlocks bs); cache := cache bs; store := store bs; alloc := alloc bs |}.
Definition set_cache (f : Cache -> Cache) (bs : BlockStore) : BlockStore :=
  {| _wlocks := _wlocks bs; cache := f (cache bs); store := store bs; alloc := alloc bs |}.
Definition set_store (f : Provider -> Provider) (bs : BlockStore) : BlockStore :=
  {| _wlocks := _wlocks bs; cache := cache bs; store := f (store bs); alloc := alloc bs |}.
Definition set_alloc (f : Alloc -> Alloc) (bs : BlockStore) : BlockStore :=
  {| _wlocks := _wlocks bs; cache := cache bs; store := store bs; alloc := f (alloc bs) |}.

(** [UUIDToMapKey] copies the sixteen bytes of the identifier. *)
Definition UUIDToMapKey (id : UUID) : UUID := id.

(** [NewBlockStore], on an initialised provider and with the configured
    cache size. *)
Definition NewBlockStore (p : Provider) (cachesz : Z) : BlockStore :=
  {| _wlocks := ∅; cache := initCache cachesz; store := p; alloc := alloc_init |}.

(** [mtx.Lock()] under [bs.glock], creating the mutex when it is missing. *)
Definition lock_stream (mk : UUID) : M BlockStore unit :=
  fun bs =>
    match _wlocks bs !! mk with
    | Some true => Blocked bs
    | _ => Done tt (set_wlocks (insert mk true) bs)
    end.

(** [bs._wlocks[key].Unlock()] *)
Definition unlock_stream (mk : UUID) : M BlockStore unit :=
  fun bs =>
    match _wlocks bs !! mk with
    | Some true => Done tt (set_wlocks (insert mk false) bs)
    | _ => Fatal UnlockOfUnlockedMutex bs
    end.

(** Modelled from the spec: [DeserializeSuperblock] is not in
    [blockstore.go].  "Deserialization validates stream_id and generation
    number match what was requested, otherwise treated as corruption."  The
    result carries the requested identifier and generation. *)
Definition DeserializeSuperblock {S} (id : UUID) (gen : Z) (arr : bytes) : M S Superblock :=
  if record_matches id gen arr
  then ret {| sb_uuid := id; sb_gen := gen; sb_root := record_root arr |}
  else panic CorruptSuperblockRecord.

(** *** Generations *)

Record Generation : Type := mkGeneration {
  Cur_SB : Superblock;
  New_SB : Superblock;
  cblocks : list Coreblock;
  vblocks : list Vectorblock;
  flushed : bool
}.

Definition Uuid (g : Generation) : UUID := sb_uuid (Cur_SB g).
Definition Number (g : Generation) : Z := sb_gen (New_SB g).

(** A generation together with the block store its [blockstore] field
    points to. *)
Record Writer : Type := mkWriter {
  gen : Generation;
  gbs : BlockStore
}.

Definition on_store {A} (m : M BlockStore A) : M Writer A :=
  fun w => match m (gbs w) with
           | Done a bs => Done a {| gen := gen w; gbs := bs |}
           | Fatal why bs => Fatal why {| gen := gen w; gbs := bs |}
           | Blocked bs => Blocked {| gen := gen w; gbs := bs |}
           end.
Definition on_gen (f : Generation -> Generation) : M Writer unit :=
  modify (fun w => {| gen := f (gen w); gbs := gbs w |}).

Definition set_New_SB_root (addr : Z) (g : Generation) : Generation :=
  {| Cur_SB := Cur_SB g;
     New_SB := {| sb_uuid := sb_uuid (New_SB g); sb_gen := sb_gen (New_SB g); sb_root := addr |};
     cblocks := cblocks g; vblocks := vblocks g; flushed := flushed g |}.
Definition set_blocks (cs : list Coreblock) (vs : list Vectorblock) (g : Generation) : Generation :=
  {| Cur_SB := Cur_SB g; New_SB := New_SB g; cblocks := cs; vblocks := vs; flushed := flushed g |}.
Definition set_flushed (b : bool) (g : Generation) : Generation :=
  {| Cur_SB := Cur_SB g; New_SB := New_SB g; cblocks := cblocks g; vblocks := vblocks g; flushed := b |}.

(** [func (g *Generation) UpdateRootAddr(addr uint64)] *)
Definition UpdateRootAddr (addr : Z) : M Writer unit :=
  on_gen (set_New_SB_root addr).

(** [func (bs *BlockStore) ObtainGeneration(id uuid.UUID) *Generation] *)
Definition ObtainGeneration (id : UUID) : M BlockStore Generation :=
  run! lock_stream (UUIDToMapKey id) in
  let! bs := get in
  let existingVer := GetStreamVersion (store bs) id in
  let! cur :=
    (if existingVer =? 0 then ret (NewSuperblock id)
     else match ReadSuperBlock (store bs) id existingVer with
          | None => panic CorruptSuperblock
          | Some sbarr => DeserializeSuperblock id existingVer sbarr
          end) in
  ret {| Cur_SB := cur; New_SB := CloneInc cur;
         cblocks := []; vblocks := []; flushed := false |}.

(** The call of [LinkAndStore] in [Commit], on the cache and the payloads of
    the block store. *)
Definition link_and_store (g : Generation) : M BlockStore (gmap Z Z) :=
  fun bs =>
    let '(address_map, c, pl) :=
      LinkAndStore (Uuid g) (cache bs) (payloads (store bs)) (vblocks g) (cblocks g) in
    Done address_map (set_store (with_payloads pl) (set_cache (fun _ => c) bs)).

(** [func (gen *Generation) Commit() (map[uint64]uint64, error)] *)
Definition Commit : M Writer (option (gmap Z Z) * option error) :=
  let! w := get in
  if flushed (gen w) then ret (None, Some AlreadyFlushed)
  else
    let! address_map := on_store (link_and_store (gen w)) in
    match address_map !! sb_root (New_SB (gen w)) with
    | None => panic RootResolutionFailure
    | Some rootaddr =>
        run! on_gen (set_New_SB_root rootaddr) in
        run! on_gen (set_blocks [] []) in
        let! w := get in
        let nsb := New_SB (gen w) in
        run! on_store (modify (set_store
               (WriteSuperBlock (sb_uuid nsb) (sb_gen nsb) (Serialize nsb)))) in
        run! on_store (modify (set_store
               (SetStreamVersion (sb_uuid nsb) (sb_gen nsb)))) in
        run! on_gen (set_flushed true) in
        run! on_store (unlock_stream (UUIDToMapKey (Uuid (gen w)))) in
        ret (Some address_map, None)
    end.

(** [func (bs *BlockStore) allocateBlock() uint64] *)
Definition allocateBlock : M BlockStore Z :=
  fun bs => let '(a, al) := receive (alloc bs) in Done a (set_alloc (fun _ => al) bs).

(** [func (gen *Generation) AllocateCoreblock()], returning the new block *)
Definition AllocateCoreblock : M Writer Coreblock :=
  let! a := on_store allocateBlock in
  let! w := get in
  let cblock := {| cb_Identifier := a; cb_Generation := Number (gen w);
                   cb_PointWidth := 0; cb_StartTime := 0; cb_payload := [] |} in
  run! on_gen (fun g => set_blocks (cblocks g ++ [cblock]) (vblocks g) g) in
  ret cblock.

(** [func (gen *Generation) AllocateVectorblock()], returning the new block *)
Definition AllocateVectorblock : M Writer Vectorblock :=
  let! a := on_store allocateBlock in
  let! w := get in
  let vblock := {| vb_Identifier := a; vb_Generation := Number (gen w);
                   vb_PointWidth := 0; vb_StartTime := 0; vb_payload := [] |} in
  run! on_gen (fun g => set_blocks (cblocks g) (vblocks g ++ [vblock]) g) in
  ret vblock.

(** [func (bs *BlockStore) ReadDatablock(uuid, addr, impl_Generation,
    impl_Pointwidth, impl_StartTime) Datablock] *)
Definition ReadDatablock (uuid : UUID) (addr impl_Generation impl_Pointwidth impl_StartTime : Z)
  : M BlockStore Datablock :=
  let! bs := get in
  let '(db, c) := cacheGet addr (cache bs) in
  run! modify (set_cache (fun _ => c)) in
  match db with
  | Some d => ret d
  | None =>
      let! bs := get in
      let trimbuf := Read (store bs) uuid addr in
      match DatablockGetBufferType trimbuf with
      | Core =>
          let rv := Coreblock_Deserialize zero_Coreblock trimbuf in
          let rv := {| cb_Identifier := addr; cb_Generation := impl_Generation;
                       cb_PointWidth := impl_Pointwidth; cb_StartTime := impl_StartTime;
                       cb_payload := cb_payload rv |} in
          run! modify (set_cache (cachePut addr (OfCore rv))) in
          ret (OfCore rv)
      | Vector =>
          let rv := Vectorblock_Deserialize zero_Vectorblock trimbuf in
          let rv := {| vb_Identifier := addr; vb_Generation := impl_Generation;
                       vb_PointWidth := impl_Pointwidth; vb_StartTime := impl_StartTime;
                       vb_payload := vb_payload rv |} in
          run! modify (set_cache (cachePut addr (OfVector rv))) in
          ret (OfVector rv)
      | Bad => panic CorruptBlockType
      end
  end.

(** [func (bs *BlockStore) LoadSuperblock(id uuid.UUID, generation uint64)
    *Superblock]; [None] is the nil result. *)
Definition LoadSuperblock (id : UUID) (generation : Z) : M BlockStore (option Superblock) :=
  let! bs := get in
  let latestGen := GetStreamVersion (store bs) id in
  if latestGen =? 0 then ret None
  else
    let generation := if generation =? LatestGeneration then latestGen else generation in
    if generation >? latestGen then ret None
    else match ReadSuperBlock (store bs) id generation with
         | None => panic CorruptSuperblock
         | Some sbarr =>
             let! sb := DeserializeSuperblock id generation sbarr in
             ret (Some sb)
         end.

(** ** Write passes *)

(** What a writer does with its generation before it commits. *)
Inductive WriterOp : Type :=
| DoAllocateCoreblock
| DoAllocateVectorblock
| DoUpdateRootAddr (addr : Z).

Definition do_op (o : WriterOp) : M Writer unit :=
  match o with
  | DoAllocateCoreblock => run! AllocateCoreblock in ret tt
  | DoAllocateVectorblock => run! AllocateVectorblock in ret tt
  | DoUpdateRootAddr addr => UpdateRootAddr addr
  end.

Fixpoint do_ops (ops : list WriterOp) : M Writer unit :=
  match ops with
  | [] => ret tt
  | o :: ops' => run! do_op o in do_ops ops'
  end.

(** Run a writer's code on the generation [g] and the block store. *)
Definition with_generation {A} (g : Generation) (m : M Writer A)
  : M BlockStore (A * Generation) :=
  fun bs => match m {| gen := g; gbs := bs |} with
            | Done a w => Done (a, gen w) (gbs w)
            | Fatal why w => Fatal why (gbs w)
            | Blocked w => Blocked (gbs w)
            end.

(** What one write pass reports: the number of its generation, the error
    value of its [Commit], and the stream's version after it. *)
Record PassReport : Type := mkPassReport {
  pass_number : Z;
  pass_error : option error;
  pass_version : Z
}.

(** One write pass on a stream: obtain a generation, work on it, commit. *)
Definition write_pass (id : UUID) (ops : list WriterOp) : M BlockStore PassReport :=
  let! g := ObtainGeneration id in
  let! r := with_generation g (run! do_ops ops in Commit) in
  let! bs := get in
  ret {| pass_number := Number (snd r);
         pass_error := snd (fst r);
         pass_version := GetStreamVersion (store bs) id |}.

Fixpoint write_passes (id : UUID) (passes : list (list WriterOp))
  : M BlockStore (list PassReport) :=
  match passes with
  | [] => ret []
  | ops :: passes' =>
      let! r := write_pass id ops in
      let! rs := write_passes id passes' in
      ret (r :: rs)
  end.

(** ** What readers rely on *)

(** A superblock record that [DeserializeSuperblock] accepts. *)
Definition readable_superblock (p : Provider) (id : UUID) (g : Z) : Prop :=
  exists arr : bytes, ReadSuperBlock p id g = Some arr /\ record_matches id g arr = true.

(** The version of every written stream points at a stored superblock. *)
Definition published (p : Provider) : Prop :=
  forall id : UUID,
    GetStreamVersion p id <> 0 -> is_Some (ReadSuperBlock p id (GetStreamVersion p id)).

End WithExternals.

(** The state an outcome leaves behind. *)
Definition state_of {S A} (o : outcome S A) : S :=
  match o with
  | Done _ s => s
  | Fatal _ s => s
  | Blocked s => s
  end.

(** ** A reference instance *)

(** A small in-memory choice of the externals, used to run the model on
    concrete inputs: payloads start with the type tag (1 vector, 2 core),
    a superblock record is its root address, and [LinkAndStore] gives the
    blocks the durable addresses that follow the payloads already stored. *)
Module Ref.

Definition block_records (vs : list Vectorblock) (cs : list Coreblock) : list (Z * bytes) :=
  map (fun v => (vb_Identifier v, 1 :: vb_payload v)) vs ++
  map (fun c => (cb_Identifier c, 2 :: cb_payload c)) cs.

Fixpoint place (id : UUID) (next : Z) (recs : list (Z * bytes))
    (acc : gmap Z Z * gmap (UUID * Z) bytes) : gmap Z Z * gmap (UUID * Z) bytes :=
  match recs with
  | [] => acc
  | (tmp, buf) :: recs' =>
      place id (next + 1) recs' (<[tmp := next]> (fst acc), <[(id, next) := buf]> (snd acc))
  end.

Definition link (id : UUID) (c : Cache) (pl : gmap (UUID * Z) bytes)
    (vs : list Vectorblock) (cs : list Coreblock)
  : gmap Z Z * Cache * gmap (UUID * Z) bytes :=
  let '(m, pl') := place id (Z.of_nat (size pl) + 1) (block_records vs cs) (∅, pl) in
  (m, c, pl').

Definition buffer_type (buf : bytes) : BlockType :=
  match buf with
  | 2 :: _ => Core
  | 1 :: _ => Vector
  | _ => Bad
  end.

#[export] Instance externals : Externals := {|
  RELOCATION_BASE := 0xFF00000000000000;
  Serialize := fun sb => [sb_root sb];
  record_matches := fun _ _ arr => match arr with [_] => true | _ => false end;
  record_root := fun arr => hd 0 arr;
  LinkAndStore := link;
  DatablockGetBufferType := buffer_type;
  Coreblock_Deserialize := fun c buf =>
    {| cb_Identifier := cb_Identifier c; cb_Generation := cb_Generation c;
       cb_PointWidth := cb_PointWidth c; cb_StartTime := cb_StartTime c;
       cb_payload := tl buf |};
  Vectorblock_Deserialize := fun v buf =>
    {| vb_Identifier := vb_Identifier v; vb_Generation := vb_Generation v;
       vb_PointWidth := vb_PointWidth v; vb_StartTime := vb_StartTime v;
       vb_payload := tl buf |}
|}.

Definition empty_provider : Provider :=
  {| versions := ∅; superblocks := ∅; payloads := ∅; calls := [] |}.

Definition fresh_store : BlockStore := NewBlockStore empty_provider 16.

Definition stream : UUID := 7%N.

(** A writer on [stream] that has allocated one vector block and made it
    the root. *)
Definition prepared : Writer :=
  {| gen := {| Cur_SB := NewSuperblock stream;
               New_SB := {| sb_uuid := stream; sb_gen := 2;
                            sb_root := 0xFF00000000000000 |};
               cblocks := [];
               vblocks := [ {| vb_Identifier := 0xFF00000000000000; vb_Generation := 2;
                               vb_PointWidth := 0; vb_StartTime := 0; vb_payload := [] |} ];
               flushed := false |};
     gbs := {| _wlocks := {[ stream := true ]};
               cache := initCache 16;
               store := empty_provider;
               alloc := {| relocation_addr := 0xFF00000000000001; alloc_chan := [] |} |} |}.

(** The same writer without a root: the root address 0 was never
    allocated. *)
Definition rootless : Writer :=
  {| gen := set_New_SB_root 0 (gen prepared); gbs := gbs prepared |}.

Definition address_map : gmap Z Z := {[ 0xFF00000000000000 := 1 ]}.

Definition linked : BlockStore := state_of (link_and_store (gen prepared) (gbs prepared)).

Definition committed : Writer := state_of (Commit prepared).

Definition two_passes : list (list WriterOp) :=
  [ [DoAllocateVectorblock; DoUpdateRootAddr 0xFF00000000000000];
    [DoAllocateCoreblock; DoUpdateRootAddr 0xFF00000000000001] ].

Definition two_passes_run : outcome BlockStore (list PassReport) :=
  write_passes stream two_passes fresh_store.

Definition two_passes_reports : list PassReport :=
  match two_passes_run with Done reports _ => reports | _ => [] end.

(** The three addresses a first caller, then a second one, receive. *)
Definition after_one : Alloc := snd (receive alloc_init).
Definition after_three : Alloc := snd (receive (snd (receive after_one))).

End Ref.

(** ** Map keys, byte by byte *)

Module Key.

(** [func UUIDToMapKey(id uuid.UUID) [16]byte] on the bytes of the
    identifier ([uuid.UUID] is a byte slice): [rv := [16]byte{}] is sixteen
    zero bytes and [copy(rv[:], id)] overwrites the first
    [min(16, len(id))] of them. *)
Definition UUIDToMapKey (id : bytes) : bytes :=
  take 16 id ++ replicate (16 - length id) 0.

End Key.

(** ** Two more reference values *)

Module Edge.

(** The reference externals with the relocation base two below 2^64, where
    the counter wraps after two addresses. *)
Definition near_top : Externals := {|
  RELOCATION_BASE := 2 ^ 64 - 2;
  Serialize := @Serialize Ref.externals;
  record_matches := @record_matches Ref.externals;
  record_root := @record_root Ref.externals;
  LinkAndStore := @LinkAndStore Ref.externals;
  DatablockGetBufferType := @DatablockGetBufferType Ref.externals;
  Coreblock_Deserialize := @Coreblock_Deserialize Ref.externals;
  Vectorblock_Deserialize := @Vectorblock_Deserialize Ref.externals
|}.

(** A block store whose provider reports version 3 for [Ref.stream] and
    holds no superblock record. *)
Definition torn_store : BlockStore :=
  NewBlockStore (Ext := Ref.externals)
    {| versions := {[ Ref.stream := 3 ]}; superblocks := ∅; payloads := ∅; calls := [] |}
    16.

(** A writer that has just obtained its generation on [Ref.stream] from
    [Ref.fresh_store]. *)
Definition opened_store : BlockStore :=
  set_wlocks (insert Ref.stream true) Ref.fresh_store.

Definition opened_writer : Writer :=
  {| gen := {| Cur_SB := NewSuperblock Ref.stream;
               New_SB := CloneInc (NewSuperblock Ref.stream);
               cblocks := []; vblocks := []; flushed := false |};
     gbs := opened_store |}.

(** The block store of [Ref.committed] after one read of address 1. *)
Definition read_once : BlockStore :=
  state_of (ReadDatablock (Ext := Ref.externals) Ref.stream 1 2 3 4 (gbs Ref.committed)).

Definition block_one : Datablock :=
  OfVector {| vb_Identifier := 1; vb_Generation := 2; vb_PointWidth := 3;
              vb_StartTime := 4; vb_payload := [] |}.

(** The first three receives with the base of [near_top]. *)
Definition three_receives : list Z := [2 ^ 64 - 2; 2 ^ 64 - 1; 2 ^ 64 - 2].

Definition after_three_receives : Alloc :=
  snd (receive (Ext := near_top)
         (snd (receive (Ext := near_top)
                 (snd (receive (Ext := near_top) (alloc_init (Ext := near_top))))))).

(** A third pass on the stream of [Ref.committed]. *)
Definition next_pass : list (list WriterOp) :=
  [ [DoAllocateCoreblock; DoUpdateRootAddr 0xFF00000000000001] ].

Definition next_pass_run : outcome BlockStore (list PassReport) :=
  write_passes (Ext := Ref.externals) Ref.stream next_pass (gbs Ref.committed).

Definition next_pass_reports : list PassReport :=
  match next_pass_run with Done reports _ => reports | _ => [] end.

End Edge.

(** * Properties *)

Section Allocator.
Context `{Ext : Externals}.

Lemma wrap64_small (z : Z) : is_u64 z -> wrap64 z = z.
Proof. unfold wrap64, is_u64. intros H. by apply Z.mod_small. Qed.

Lemma wrap64_range (z : Z) : is_u64 (wrap64 z).
Proof. unfold wrap64, is_u64, U64_MOD. apply Z.mod_pos_bound. lia. Qed.

Lemma next_relocation_addr_ge (a : Z) : RELOCATION_BASE <= next_relocation_addr a.
Proof. unfold next_relocation_addr. case_eq (wrap64 (a + 1) <? RELOCATION_BASE); lia. Qed.

Lemma next_relocation_addr_u64 (a : Z) :
  is_u64 RELOCATION_BASE -> is_u64 (next_relocation_addr a).
Proof.
  intros HB. unfold next_relocation_addr.
  destruct (wrap64 (a + 1) <? RELOCATION_BASE); [done | apply wrap64_range].
Qed.

Lemma next_relocation_addr_succ (a : Z) :
  RELOCATION_BASE <= a -> a + 1 < U64_MOD -> 0 <= a ->
  next_relocation_addr a = a + 1.
Proof.
  intros Hge Hlt H0. unfold next_relocation_addr.
  rewrite wrap64_small by (unfold is_u64; lia).
  case_eq (a + 1 <? RELOCATION_BASE); lia.
Qed.

Lemma sent_from_length (a : Z) (n : nat) : length (sent_from a n) = n.
Proof. revert a. induction n as [|n IH]; intros a; simpl; [done | by rewrite IH]. Qed.

Lemma sent_from_snoc (a : Z) (n : nat) :
  sent_from a (S n) = sent_from a n ++ [Nat.iter n next_relocation_addr a].
Proof.
  revert a. induction n as [|n IH]; intros a; [done |].
  change (sent_from a (S (S n))) with (a :: sent_from (next_relocation_addr a) (S n)).
  rewrite IH. simpl. f_equal. f_equal. f_equal.
  clear IH. induction n as [|n IHn]; simpl; [done | by rewrite IHn].
Qed.

Lemma sent_from_take (a : Z) (k n : nat) :
  (k <= n)%nat -> take k (sent_from a n) = sent_from a k.
Proof.
  revert a n. induction k as [|k IH]; intros a n Hk; [done |].
  destruct n as [|n]; [lia |]. simpl. f_equal. apply IH. lia.
Qed.

Lemma sent_from_drop (a : Z) (k n : nat) :
  drop k (sent_from a (k + n)) = sent_from (Nat.iter k next_relocation_addr a) n.
Proof.
  revert a. induction k as [|k IH]; intros a; [done |].
  simpl. rewrite IH. f_equal.
  clear IH. induction k as [|k IHk]; simpl; [done | by rewrite IHk].
Qed.

Lemma sent_from_ge (a : Z) (n : nat) :
  RELOCATION_BASE <= a -> Forall (fun x => RELOCATION_BASE <= x) (sent_from a n).
Proof.
  revert a. induction n as [|n IH]; intros a Ha; simpl; constructor; [done |].
  apply IH, next_relocation_addr_ge.
Qed.

Lemma sent_from_u64 (a : Z) (n : nat) :
  is_u64 RELOCATION_BASE -> is_u64 a -> Forall is_u64 (sent_from a n).
Proof.
  intros HB. revert a. induction n as [|n IH]; intros a Ha; simpl; constructor; [done |].
  by apply IH, next_relocation_addr_u64.
Qed.

Lemma sent_from_consecutive (a : Z) (n : nat) :
  RELOCATION_BASE <= a -> 0 <= a -> a + Z.of_nat n <= U64_MOD ->
  sent_from a n = map (fun i => a + Z.of_nat i) (seq 0 n).
Proof.
  revert a. induction n as [|n IH]; intros a Hge H0 Hlt; [done |].
  rewrite Nat2Z.inj_succ in Hlt.
  cbn [sent_from seq map]. f_equal; [lia |].
  destruct n as [|n']; [done |].
  rewrite Nat2Z.inj_succ in Hlt.
  rewrite next_relocation_addr_succ by lia.
  rewrite IH by lia. rewrite <- seq_shift, map_map.
  apply map_ext. intros i. lia.
Qed.

Lemma iter_next_consecutive (a : Z) (n : nat) :
  RELOCATION_BASE <= a -> 0 <= a -> a + Z.of_nat n < U64_MOD ->
  Nat.iter n next_relocation_addr a = a + Z.of_nat n.
Proof.
  intros Hge H0. induction n as [|n IH]; intros Hlt; [simpl; lia |].
  rewrite Nat2Z.inj_succ in Hlt |- *.
  change (Nat.iter (S n) next_relocation_addr a)
    with (next_relocation_addr (Nat.iter n next_relocation_addr a)).
  rewrite IH by lia. rewrite next_relocation_addr_succ; lia.
Qed.

(** What has been received and what is still buffered is what the goroutine
    has sent. *)
Lemma alloc_run_sent (al al' : Alloc) (got : list Z) :
  alloc_run al got al' ->
  exists n : nat,
    got ++ alloc_chan al' = alloc_chan al ++ sent_from (relocation_addr al) n /\
    relocation_addr al' = Nat.iter n next_relocation_addr (relocation_addr al).
Proof.
  induction 1 as [al | al al' al'' got Hstep _ IH | al al' al'' a got Hstep _ IH].
  - exists O. simpl. by rewrite app_nil_r.
  - destruct IH as (n & Hq & Hr). inversion Hstep; subst. simpl in *.
    exists (S n). split.
    + rewrite Hq, <- app_assoc. done.
    + rewrite Hr. clear. induction n as [|n IHn]; simpl; [done | by rewrite IHn].
  - destruct IH as (n & Hq & Hr). inversion Hstep; subst. simpl in *.
    exists n. split; [by rewrite Hq | done].
Qed.

Lemma alloc_run_app (al1 al2 al3 : Alloc) (g1 g2 : list Z) :
  alloc_run al1 g1 al2 -> alloc_run al2 g2 al3 -> alloc_run al1 (g1 ++ g2) al3.
Proof.
  induction 1; intros H2; simpl; [done | |].
  - eapply run_send; eauto.
  - eapply run_recv; eauto.
Qed.

Lemma alloc_run_init (got : list Z) (al' : Alloc) :
  alloc_run alloc_init got al' -> got = sent_from RELOCATION_BASE (length got).
Proof.
  intros Hrun. destruct (alloc_run_sent _ _ _ Hrun) as (n & Hq & _).
  simpl in Hq.
  assert (Hlen : (length got <= n)%nat).
  { apply (f_equal length) in Hq. rewrite length_app, sent_from_length in Hq. lia. }
  rewrite <- (sent_from_take _ _ n Hlen), <- Hq.
  by rewrite take_app_length.
Qed.

Lemma consecutive_sorted (c : Z) (s k : nat) :
  StronglySorted Z.lt (map (fun i => c + Z.of_nat i) (seq s k)).
Proof.
  revert s. induction k as [|k IH]; intros s; cbn [seq map]; constructor.
  - apply IH.
  - apply Forall_forall. intros x Hx.
    apply list_elem_of_In, in_map_iff in Hx as (i & <- & Hi). apply in_seq in Hi. lia.
Qed.

Lemma consecutive_NoDup (c : Z) (s k : nat) :
  NoDup (map (fun i => c + Z.of_nat i) (seq s k)).
Proof.
  assert (Hinj : Inj (=) (=) (fun i : nat => c + Z.of_nat i))
    by (intros i j Hij; lia).
  apply (NoDup_fmap_2 (fun i : nat => c + Z.of_nat i)), NoDup_seq.
Qed.

(** A single caller's receive is a run of the two parties. *)
Lemma receive_run (al : Alloc) :
  alloc_run al [fst (receive al)] (snd (receive al)).
Proof.
  destruct al as [r q]. unfold receive. cbn [relocation_addr alloc_chan].
  destruct q as [|a q]; cbn [fst snd].
  - eapply run_send; [apply step_send; simpl; unfold ALLOC_CAP; lia |].
    eapply run_recv; [apply step_recv | apply run_nil].
  - eapply run_recv; [apply step_recv | apply run_nil].
Qed.

(** The two allocation calls take their address from the channel, stamp the
    block with it and with the generation's number, and append the block to
    the generation's list. *)
Lemma AllocateCoreblock_receives (w : Writer) :
  exists (c : Coreblock) (w' : Writer),
    AllocateCoreblock w = Done c w'
    /\ alloc_run (alloc (gbs w)) [cb_Identifier c] (alloc (gbs w'))
    /\ cb_Generation c = Number (gen w)
    /\ cblocks (gen w') = cblocks (gen w) ++ [c].
Proof.
  unfold AllocateCoreblock, bind, get, on_store, on_gen, allocateBlock, modify, ret.
  pose proof (receive_run (alloc (gbs w))) as Hrun.
  destruct (receive (alloc (gbs w))) as [a al]. cbn in *.
  eexists _, _. split; [reflexivity |]. cbn. done.
Qed.

Lemma AllocateVectorblock_receives (w : Writer) :
  exists (v : Vectorblock) (w' : Writer),
    AllocateVectorblock w = Done v w'
    /\ alloc_run (alloc (gbs w)) [vb_Identifier v] (alloc (gbs w'))
    /\ vb_Generation v = Number (gen w)
    /\ vblocks (gen w') = vblocks (gen w) ++ [v].
Proof.
  unfold AllocateVectorblock, bind, get, on_store, on_gen, allocateBlock, modify, ret.
  pose proof (receive_run (alloc (gbs w))) as Hrun.
  destruct (receive (alloc (gbs w))) as [a al]. cbn in *.
  eexists _, _. split; [reflexivity |]. cbn. done.
Qed.

(** C8. From the start of the block store on, whatever the interleaving of
    the goroutine and the callers of [allocateBlock], every run of
    consecutive allocations returns consecutive addresses: after
    [length got1] earlier allocations the run [got2] is
    RELOCATION_BASE + length got1, + 1, + 2, ..., so it is strictly
    increasing and without repetition, and the very first address is
    RELOCATION_BASE; all this while the counter stays inside 64 bits. *)
Theorem allocations_strictly_increasing (got1 got2 : list Z) (al1 al2 : Alloc) :
  is_u64 RELOCATION_BASE ->
  alloc_run alloc_init got1 al1 ->
  alloc_run al1 got2 al2 ->
  RELOCATION_BASE + Z.of_nat (length got1 + length got2) <= U64_MOD ->
  got2 = map (fun i => RELOCATION_BASE + Z.of_nat (length got1) + Z.of_nat i)
             (seq 0 (length got2))
  /\ StronglySorted Z.lt got2
  /\ NoDup got2.
Proof.
  intros [HB0 HB1] H1 H2 Hfit.
  assert (Hall := alloc_run_init _ _ (alloc_run_app _ _ _ _ _ H1 H2)).
  rewrite length_app in Hall.
  assert (Hgot2 : got2 = sent_from (Nat.iter (length got1) next_relocation_addr RELOCATION_BASE)
                                   (length got2)).
  { rewrite <- sent_from_drop, <- Hall. by rewrite drop_app_length. }
  assert (Heq : got2 = map (fun i => RELOCATION_BASE + Z.of_nat (length got1) + Z.of_nat i)
                           (seq 0 (length got2))).
  { destruct got2 as [|a got2']; [done |].
    rewrite Hgot2 at 1. cbn [length] in *.
    rewrite iter_next_consecutive by lia.
    apply sent_from_consecutive; lia. }
  split; [exact Heq |].
  rewrite Heq. split; [apply consecutive_sorted | apply consecutive_NoDup].
Qed.

(** C9. When the increment wraps the counter below RELOCATION_BASE, the
    goroutine continues from RELOCATION_BASE (in particular after
    2^64 - 1), and every address it hands out is a 64-bit value that is at
    least RELOCATION_BASE. *)
Theorem allocator_wraps_to_base :
  is_u64 RELOCATION_BASE ->
  (forall a : Z, wrap64 (a + 1) < RELOCATION_BASE ->
                 next_relocation_addr a = RELOCATION_BASE)
  /\ next_relocation_addr (U64_MOD - 1) = RELOCATION_BASE
  /\ (forall (got : list Z) (al : Alloc),
        alloc_run alloc_init got al ->
        Forall (fun a => RELOCATION_BASE <= a < U64_MOD) got).
Proof.
  intros HB. split; [| split].
  - intros a Ha. unfold next_relocation_addr.
    case_eq (wrap64 (a + 1) <? RELOCATION_BASE); [done | lia].
  - unfold next_relocation_addr.
    replace (wrap64 (U64_MOD - 1 + 1)) with 0.
    + destruct HB as [HB0 _]. case_eq (0 <? RELOCATION_BASE); lia.
    + unfold wrap64. replace (U64_MOD - 1 + 1) with U64_MOD by lia.
      by rewrite Z.mod_same.
  - intros got al Hrun. rewrite (alloc_run_init _ _ Hrun).
    apply Forall_forall. intros x Hx. split.
    + revert x Hx. apply Forall_forall, sent_from_ge. lia.
    + assert (Hu : Forall is_u64 (sent_from RELOCATION_BASE (length got)))
        by (by apply sent_from_u64).
      rewrite Forall_forall in Hu. by apply Hu.
Qed.

End Allocator.

Section Commits.
Context `{Ext : Externals}.

Lemma Commit_flushed (w : Writer) :
  flushed (gen w) = true -> Commit w = Done (None, Some AlreadyFlushed) w.
Proof. intros H. unfold Commit, bind, get. cbn. by rewrite H. Qed.

(** The generation a commit leaves behind when the root resolves to [r]. *)
Let committed (r : Z) (g : Generation) : Generation :=
  set_flushed true (set_blocks [] [] (set_New_SB_root r g)).

(** The provider after the two publishing calls of a commit. *)
Let publish (sb : Superblock) (p : Provider) : Provider :=
  SetStreamVersion (sb_uuid sb) (sb_gen sb)
    (WriteSuperBlock (sb_uuid sb) (sb_gen sb) (Serialize sb) p).

(** [Commit] on a generation that is not flushed, step by step. *)
Lemma Commit_unflushed (w : Writer) (m : gmap Z Z) (bs1 : BlockStore) :
  flushed (gen w) = false ->
  link_and_store (gen w) (gbs w) = Done m bs1 ->
  Commit w =
  match m !! sb_root (New_SB (gen w)) with
  | None => Fatal RootResolutionFailure {| gen := gen w; gbs := bs1 |}
  | Some r =>
      let g' := committed r (gen w) in
      let bs3 := set_store (publish (New_SB g')) bs1 in
      match _wlocks bs1 !! Uuid (gen w) with
      | Some true =>
          Done (Some m, None)
               {| gen := g'; gbs := set_wlocks (insert (Uuid (gen w)) false) bs3 |}
      | _ => Fatal UnlockOfUnlockedMutex {| gen := g'; gbs := bs3 |}
      end
  end.
Proof.
  intros Hf Hl. unfold Commit, bind, get. cbn. rewrite Hf.
  unfold on_store. rewrite Hl. cbn.
  destruct (m !! sb_root (New_SB (gen w))) as [r|]; [| done].
  cbn. unfold unlock_stream, UUIDToMapKey. cbn.
  change (Uuid (set_blocks [] [] (set_New_SB_root r (gen w)))) with (Uuid (gen w)).
  destruct (_wlocks bs1 !! Uuid (gen w)) as [[|]|]; reflexivity.
Qed.

Lemma link_and_store_Done (g : Generation) (bs : BlockStore) :
  exists m c pl,
    LinkAndStore (Uuid g) (cache bs) (payloads (store bs)) (vblocks g) (cblocks g)
      = (m, c, pl) /\
    link_and_store g bs =
      Done m (set_store (with_payloads pl) (set_cache (fun _ => c) bs)).
Proof.
  unfold link_and_store.
  destruct (LinkAndStore _ _ _ _ _) as [[m c] pl]. by exists m, c, pl.
Qed.

(** [link_and_store] leaves locks, versions, superblock records and the
    journal as they are. *)
Lemma link_and_store_frame (g : Generation) (bs bs1 : BlockStore) (m : gmap Z Z) :
  link_and_store g bs = Done m bs1 ->
  _wlocks bs1 = _wlocks bs /\ alloc bs1 = alloc bs /\
  versions (store bs1) = versions (store bs) /\
  superblocks (store bs1) = superblocks (store bs) /\
  calls (store bs1) = calls (store bs).
Proof.
  destruct (link_and_store_Done g bs) as (m' & c & pl & _ & ->).
  intros [= <- <-]. done.
Qed.

(** C2. Once [Commit] has succeeded on a generation, calling it again on
    that generation, whatever the block store has become in between,
    returns the error "Already Flushed" and changes nothing: the
    generation, the payloads, the superblock records, the version index and
    the journal of provider calls are those from before the call. *)
Theorem commit_twice_already_flushed
    (w w' : Writer) (m : gmap Z Z) (bs : BlockStore) :
  Commit w = Done (Some m, None) w' ->
  Commit {| gen := gen w'; gbs := bs |}
  = Done (None, Some AlreadyFlushed) {| gen := gen w'; gbs := bs |}.
Proof.
  intros Hc. apply Commit_flushed. cbn.
  destruct (flushed (gen w)) eqn:Hf.
  - rewrite Commit_flushed in Hc by done. discriminate.
  - destruct (link_and_store_Done (gen w) (gbs w)) as (m' & c & pl & _ & Hl).
    rewrite (Commit_unflushed _ _ _ Hf Hl) in Hc.
    destruct (m' !! sb_root (New_SB (gen w))); [| discriminate].
    cbn in Hc. destruct (_wlocks _ !! _) as [[|]|]; try discriminate.
    by injection Hc as _ <-.
Qed.

(** C4. On a generation that is not flushed: when the root address
    recorded in [New_SB] is not a key of the address map of [LinkAndStore],
    [Commit] aborts with the root-resolution failure, it does not return,
    and no superblock has been written nor any version moved; when it is a
    key, the root of [New_SB] becomes the mapped address, and the record
    written for the new generation is the serialisation of [New_SB] with
    that root, whatever happens afterwards. *)
Theorem commit_root_resolution (w : Writer) (m : gmap Z Z) (bs1 : BlockStore) :
  flushed (gen w) = false ->
  link_and_store (gen w) (gbs w) = Done m bs1 ->
  (m !! sb_root (New_SB (gen w)) = None ->
     Commit w = Fatal RootResolutionFailure {| gen := gen w; gbs := bs1 |}
     /\ superblocks (store bs1) = superblocks (store (gbs w))
     /\ versions (store bs1) = versions (store (gbs w))
     /\ calls (store bs1) = calls (store (gbs w)))
  /\ (forall r : Z, m !! sb_root (New_SB (gen w)) = Some r ->
        let w' := state_of (Commit w) in
        let nsb := {| sb_uuid := sb_uuid (New_SB (gen w));
                      sb_gen := sb_gen (New_SB (gen w));
                      sb_root := r |} in
        New_SB (gen w') = nsb
        /\ ReadSuperBlock (store (gbs w')) (sb_uuid nsb) (sb_gen nsb) = Some (Serialize nsb)
        /\ calls (store (gbs w')) =
             calls (store (gbs w)) ++
             [CallWriteSuperBlock (sb_uuid nsb) (sb_gen nsb) (Serialize nsb);
              CallSetStreamVersion (sb_uuid nsb) (sb_gen nsb)]).
Proof.
  intros Hf Hl. rewrite (Commit_unflushed _ _ _ Hf Hl).
  destruct (link_and_store_frame _ _ _ _ Hl) as (_ & _ & Hv & Hs & Hc).
  split.
  - intros ->. done.
  - intros r ->. cbn zeta.
    assert (Hcalls : forall x y : ProviderCall,
               (calls (store bs1) ++ [x]) ++ [y] = calls (store (gbs w)) ++ [x; y])
      by (intros; by rewrite Hc, <- app_assoc).
    destruct (_wlocks bs1 !! Uuid (gen w)) as [[|]|]; cbn;
      (split; [done |]); (split; [apply lookup_insert_eq | apply Hcalls]).
Qed.

Lemma published_with_payloads (pl : gmap (UUID * Z) bytes) (p : Provider) :
  published p -> published (with_payloads pl p).
Proof. intros Hp id. apply (Hp id). Qed.

Lemma published_WriteSuperBlock (id : UUID) (g : Z) (buf : bytes) (p : Provider) :
  published p -> published (WriteSuperBlock id g buf p).
Proof.
  intros Hp id' Hv. unfold ReadSuperBlock, GetStreamVersion in *. cbn in *.
  destruct (decide ((id, g) = (id', default 0 (versions p !! id')))) as [<- | Hne].
  - rewrite lookup_insert_eq. by eexists.
  - rewrite lookup_insert_ne by done. by apply Hp.
Qed.

Lemma published_SetStreamVersion (id : UUID) (g : Z) (p : Provider) :
  is_Some (ReadSuperBlock p id g) -> published p -> published (SetStreamVersion id g p).
Proof.
  intros Hs Hp id' Hv. unfold ReadSuperBlock, GetStreamVersion in *. cbn in *.
  destruct (decide (id = id')) as [<- | Hne].
  - rewrite lookup_insert_eq. done.
  - rewrite lookup_insert_ne in Hv |- * by done. by apply Hp.
Qed.

(** C3. A successful [Commit] makes exactly two calls that readers of
    superblocks can see, in this order: it writes the record of the new
    generation, then it sets the stream's version to the new number.  In
    the provider states it goes through (after [LinkAndStore], after the
    write, after the version is set) the stream's version is the old one
    until the last state, where it is the new number and the record is
    there; and when every version pointed at a stored record before the
    commit, it does so in each of these states. *)
Theorem commit_writes_superblock_before_version
    (w w' : Writer) (m : gmap Z Z) :
  Commit w = Done (Some m, None) w' ->
  let id := sb_uuid (New_SB (gen w)) in
  let g := sb_gen (New_SB (gen w)) in
  let p0 := store (gbs w) in
  exists (pl : gmap (UUID * Z) bytes) (buf : bytes),
    let p1 := with_payloads pl p0 in
    let p2 := WriteSuperBlock id g buf p1 in
    let p3 := SetStreamVersion id g p2 in
    store (gbs w') = p3
    /\ calls p3 = calls p0 ++ [CallWriteSuperBlock id g buf; CallSetStreamVersion id g]
    /\ buf = Serialize (New_SB (gen w'))
    /\ GetStreamVersion p1 id = GetStreamVersion p0 id
    /\ GetStreamVersion p2 id = GetStreamVersion p0 id
    /\ ReadSuperBlock p2 id g = Some buf
    /\ GetStreamVersion p3 id = g
    /\ ReadSuperBlock p3 id g = Some buf
    /\ (published p0 -> published p1 /\ published p2 /\ published p3).
Proof.
  intros Hc id g p0.
  destruct (flushed (gen w)) eqn:Hf.
  { rewrite Commit_flushed in Hc by done. discriminate. }
  destruct (link_and_store_Done (gen w) (gbs w)) as (m' & c & pl & _ & Hl).
  rewrite (Commit_unflushed _ _ _ Hf Hl) in Hc.
  destruct (m' !! sb_root (New_SB (gen w))) as [r|]; [| discriminate].
  cbn zeta in Hc.
  destruct (_wlocks _ !! Uuid (gen w)) as [[|]|]; try discriminate.
  injection Hc as _ <-.
  exists pl, (Serialize (New_SB (committed r (gen w)))). cbn zeta.
  split; [reflexivity |].
  split; [cbn; by rewrite <- app_assoc |].
  split; [reflexivity |].
  split; [reflexivity |].
  split; [reflexivity |].
  split; [apply lookup_insert_eq |].
  split; [unfold GetStreamVersion; cbn; by rewrite lookup_insert_eq |].
  split; [apply lookup_insert_eq |].
  intros Hp.
  assert (H1 : published (with_payloads pl p0)) by by apply published_with_payloads.
  split; [exact H1 |].
  split; [by apply published_WriteSuperBlock |].
  apply published_SetStreamVersion.
  - unfold ReadSuperBlock. cbn. rewrite lookup_insert_eq. by eexists.
  - by apply published_WriteSuperBlock.
Qed.

End Commits.

Section Readers.
Context `{Ext : Externals}.

Lemma LatestGeneration_value : LatestGeneration = 2 ^ 64 - 1.
Proof. reflexivity. Qed.

(** [LoadSuperblock] once the sentinel is resolved. *)
Lemma LoadSuperblock_unfold (bs : BlockStore) (id : UUID) (generation : Z) :
  LoadSuperblock id generation bs =
  let latestGen := GetStreamVersion (store bs) id in
  let resolved := if generation =? LatestGeneration then latestGen else generation in
  if latestGen =? 0 then Done None bs
  else if resolved >? latestGen then Done None bs
  else match ReadSuperBlock (store bs) id resolved with
       | None => Fatal CorruptSuperblock bs
       | Some arr =>
           if record_matches id resolved arr
           then Done (Some {| sb_uuid := id; sb_gen := resolved; sb_root := record_root arr |}) bs
           else Fatal CorruptSuperblockRecord bs
       end.
Proof.
  unfold LoadSuperblock, bind, get. cbn zeta.
  destruct (GetStreamVersion (store bs) id =? 0); [done |].
  destruct (_ >? _); [done |].
  destruct (ReadSuperBlock _ _ _) as [arr|]; [| done].
  unfold DeserializeSuperblock. by destruct (record_matches _ _ _).
Qed.

Lemma LoadSuperblock_latest (bs : BlockStore) (id : UUID) :
  LoadSuperblock id LatestGeneration bs
  = LoadSuperblock id (GetStreamVersion (store bs) id) bs.
Proof.
  rewrite !LoadSuperblock_unfold. cbn zeta. rewrite Z.eqb_refl.
  destruct (GetStreamVersion (store bs) id =? LatestGeneration); reflexivity.
Qed.

(** A reader asking for the latest generation finds its record whenever
    every version points at a stored record. *)
Lemma published_LoadSuperblock_latest (bs : BlockStore) (id : UUID) :
  published (store bs) ->
  LoadSuperblock id LatestGeneration bs <> Fatal CorruptSuperblock bs.
Proof.
  intros Hp. rewrite LoadSuperblock_unfold. cbn zeta. rewrite Z.eqb_refl.
  destruct (Z.eqb_spec (GetStreamVersion (store bs) id) 0) as [| Hne]; [done |].
  destruct (_ >? _); [done |].
  destruct (Hp id Hne) as [arr ->].
  by destruct (record_matches _ _ _).
Qed.

(** C5. [LoadSuperblock] returns nil for a stream whose version is 0; the
    sentinel [LatestGeneration] is answered as the stream's version is; a
    generation number above the stream's version (the sentinel is not a
    generation number) gets nil, not a failure; and the call aborts exactly
    when the stream has a version, the resolved generation is not above it,
    and the provider has no readable record for it.  The block store is
    never changed. *)
Theorem load_superblock_cases (bs : BlockStore) (id : UUID) (generation : Z) :
  let latestGen := GetStreamVersion (store bs) id in
  let resolved := if generation =? LatestGeneration then latestGen else generation in
  (latestGen = 0 -> LoadSuperblock id generation bs = Done None bs)
  /\ LoadSuperblock id LatestGeneration bs = LoadSuperblock id latestGen bs
  /\ (generation <> LatestGeneration -> generation > latestGen ->
       LoadSuperblock id generation bs = Done None bs)
  /\ ((exists why s, LoadSuperblock id generation bs = Fatal why s) <->
       latestGen <> 0 /\ resolved <= latestGen /\
       ~ readable_superblock (store bs) id resolved)
  /\ (latestGen <> 0 -> resolved <= latestGen ->
       ReadSuperBlock (store bs) id resolved = None ->
       LoadSuperblock id generation bs = Fatal CorruptSuperblock bs)
  /\ state_of (LoadSuperblock id generation bs) = bs.
Proof.
  intros latestGen resolved.
  split; [| split; [apply LoadSuperblock_latest |]];
    rewrite !LoadSuperblock_unfold; cbn zeta; fold latestGen; fold resolved.
  { intros ->. reflexivity. }
  split; [| split; [| split]].
  - intros Hne Hgt.
    destruct (latestGen =? 0); [done |].
    assert (Hres : resolved = generation).
    { unfold resolved. apply Z.eqb_neq in Hne. by rewrite Hne. }
    rewrite Hres. apply Z.gtb_gt in Hgt. by rewrite Hgt.
  - unfold readable_superblock.
    destruct (latestGen =? 0) eqn:H0.
    { apply Z.eqb_eq in H0. split; [intros (? & ? & [=]) | intros (? & _); done]. }
    apply Z.eqb_neq in H0.
    destruct (resolved >? latestGen) eqn:Hgt.
    { apply Z.gtb_gt in Hgt. split; [intros (? & ? & [=]) | intros (_ & ? & _); lia]. }
    assert (Hle : resolved <= latestGen).
    { destruct (Z.gtb_spec resolved latestGen); [done | lia]. }
    destruct (ReadSuperBlock (store bs) id resolved) as [arr|].
    + destruct (record_matches id resolved arr) eqn:Hm.
      * split; [intros (? & ? & [=]) |].
        intros (_ & _ & Hn). exfalso. apply Hn. by exists arr.
      * split; [| by eexists _, _].
        intros _. split; [done |]. split; [done |].
        intros (arr' & [= <-] & Hm'). congruence.
    + split; [| by eexists _, _].
      intros _. split; [done |]. split; [done |].
      intros (arr' & [=] & _).
  - intros H0 Hle Hr.
    apply Z.eqb_neq in H0. rewrite H0.
    destruct (Z.gtb_spec resolved latestGen); [lia |].
    by rewrite Hr.
  - destruct (latestGen =? 0); [done |].
    destruct (resolved >? latestGen); [done |].
    destruct (ReadSuperBlock _ _ _) as [arr|]; [| done].
    by destruct (record_matches _ _ _).
Qed.

(** C10. The sentinel is 2^64 - 1, and [LoadSuperblock] treats exactly
    this argument as "the stream's version": asking for 2^64 - 1 is asking
    for the latest generation, the superblock returned carries the stream's
    version, and every other argument is taken as the generation it is. *)
Theorem latest_sentinel_is_reinterpreted (bs : BlockStore) (id : UUID) :
  LatestGeneration = 2 ^ 64 - 1
  /\ LoadSuperblock id (2 ^ 64 - 1) bs
      = LoadSuperblock id (GetStreamVersion (store bs) id) bs
  /\ (forall (sb : Superblock) (s : BlockStore),
        LoadSuperblock id (2 ^ 64 - 1) bs = Done (Some sb) s ->
        sb_gen sb = GetStreamVersion (store bs) id)
  /\ (forall (g : Z) (sb : Superblock) (s : BlockStore),
        g <> 2 ^ 64 - 1 ->
        LoadSuperblock id g bs = Done (Some sb) s ->
        sb_gen sb = g).
Proof.
  split; [reflexivity |].
  rewrite <- LatestGeneration_value.
  split; [apply LoadSuperblock_latest |].
  split.
  - intros sb s. rewrite LoadSuperblock_unfold. cbn zeta. rewrite Z.eqb_refl.
    destruct (_ =? 0); [done |]. destruct (_ >? _); [done |].
    destruct (ReadSuperBlock _ _ _) as [arr|]; [| done].
    destruct (record_matches _ _ _); [| done]. by intros [= <- _].
  - intros g sb s Hg. rewrite LoadSuperblock_unfold. cbn zeta.
    apply Z.eqb_neq in Hg. rewrite Hg.
    destruct (_ =? 0); [done |]. destruct (_ >? _); [done |].
    destruct (ReadSuperBlock _ _ _) as [arr|]; [| done].
    destruct (record_matches _ _ _); [| done]. by intros [= <- _].
Qed.

End Readers.

Section Blocks.
Context `{Ext : Externals}.

Lemma cacheGet_miss (addr : Z) (c : Cache) :
  cache_find addr (cacheitems c) = None ->
  cacheGet addr c =
  (None, {| cacheitems := cacheitems c; cachemax := cachemax c;
            cachemiss := wrap64 (cachemiss c + 1); cachehit := cachehit c |}).
Proof. intros H. unfold cacheGet. by rewrite H. Qed.

Lemma cache_find_cachePut (addr : Z) (d : Datablock) (c : Cache) :
  1 <= cachemax c -> cache_find addr (cacheitems (cachePut addr d c)) = Some d.
Proof.
  intros Hmax. unfold cachePut. cbn [cacheitems].
  destruct (Z.leb_spec (Z.of_nat (length ((addr, d) :: cache_remove addr (cacheitems c))))
                       (cachemax c)) as [Hle | Hgt].
  - cbn. by rewrite Z.eqb_refl.
  - destruct (cache_remove addr (cacheitems c)) as [|e rest]; [cbn in Hgt; lia |].
    cbn. by rewrite Z.eqb_refl.
Qed.

(** C6. When the address is not in the cache, [ReadDatablock] decodes the
    payload the provider returns according to its type tag, overwrites
    the identifier with the address asked for and generation, point width
    and start time with the arguments of the call, puts the block into the
    cache and returns it; with room for at least one entry the cache then
    answers that address with the block returned. *)
Theorem read_datablock_miss_decodes_and_stamps
    (bs : BlockStore) (uuid : UUID) (addr g pw st : Z) :
  cache_find addr (cacheitems (cache bs)) = None ->
  let trimbuf := Read (store bs) uuid addr in
  let missed := snd (cacheGet addr (cache bs)) in
  (DatablockGetBufferType trimbuf = Core ->
     let rv := {| cb_Identifier := addr; cb_Generation := g;
                  cb_PointWidth := pw; cb_StartTime := st;
                  cb_payload := cb_payload (Coreblock_Deserialize zero_Coreblock trimbuf) |} in
     ReadDatablock uuid addr g pw st bs
     = Done (OfCore rv) (set_cache (fun _ => cachePut addr (OfCore rv) missed) bs))
  /\ (DatablockGetBufferType trimbuf = Vector ->
     let rv := {| vb_Identifier := addr; vb_Generation := g;
                  vb_PointWidth := pw; vb_StartTime := st;
                  vb_payload := vb_payload (Vectorblock_Deserialize zero_Vectorblock trimbuf) |} in
     ReadDatablock uuid addr g pw st bs
     = Done (OfVector rv) (set_cache (fun _ => cachePut addr (OfVector rv) missed) bs))
  /\ (forall (d : Datablock) (bs' : BlockStore),
        ReadDatablock uuid addr g pw st bs = Done d bs' ->
        db_Identifier d = addr /\ db_Generation d = g /\
        db_PointWidth d = pw /\ db_StartTime d = st /\
        cache bs' = cachePut addr d missed /\
        (1 <= cachemax (cache bs) ->
         cache_find addr (cacheitems (cache bs')) = Some d)).
Proof.
  intros Hmiss trimbuf missed.
  assert (Hrun : ReadDatablock uuid addr g pw st bs =
    match DatablockGetBufferType trimbuf with
    | Core =>
        let rv := {| cb_Identifier := addr; cb_Generation := g;
                     cb_PointWidth := pw; cb_StartTime := st;
                     cb_payload := cb_payload (Coreblock_Deserialize zero_Coreblock trimbuf) |} in
        Done (OfCore rv) (set_cache (fun _ => cachePut addr (OfCore rv) missed) bs)
    | Vector =>
        let rv := {| vb_Identifier := addr; vb_Generation := g;
                     vb_PointWidth := pw; vb_StartTime := st;
                     vb_payload := vb_payload (Vectorblock_Deserialize zero_Vectorblock trimbuf) |} in
        Done (OfVector rv) (set_cache (fun _ => cachePut addr (OfVector rv) missed) bs)
    | Bad => Fatal CorruptBlockType (set_cache (fun _ => missed) bs)
    end).
  { unfold ReadDatablock, bind, get, missed, trimbuf. cbn.
    rewrite (cacheGet_miss _ _ Hmiss). cbn.
    destruct (DatablockGetBufferType _); reflexivity. }
  rewrite Hrun. split; [by intros -> | split; [by intros -> |]].
  intros d bs'.
  assert (Hmax : cachemax missed = cachemax (cache bs)).
  { unfold missed. by rewrite (cacheGet_miss _ _ Hmiss). }
  destruct (DatablockGetBufferType trimbuf); cbn zeta; intros [= <- <-]; cbn;
    (repeat (split; [reflexivity |])); intros H1;
    apply cache_find_cachePut; by rewrite Hmax.
Qed.

(** C7. When the address is not in the cache and the type tag of the
    payload read from the provider is neither core nor vector,
    [ReadDatablock] aborts with the corrupt-block-type failure: it returns
    neither a block nor nil, and nothing was put into the cache. *)
Theorem read_datablock_strange_type_is_fatal
    (bs : BlockStore) (uuid : UUID) (addr g pw st : Z) :
  cache_find addr (cacheitems (cache bs)) = None ->
  DatablockGetBufferType (Read (store bs) uuid addr) <> Core ->
  DatablockGetBufferType (Read (store bs) uuid addr) <> Vector ->
  ReadDatablock uuid addr g pw st bs
  = Fatal CorruptBlockType (set_cache (fun _ => snd (cacheGet addr (cache bs))) bs).
Proof.
  intros Hmiss Hc Hv.
  unfold ReadDatablock, bind, get. cbn.
  rewrite (cacheGet_miss _ _ Hmiss). cbn.
  destruct (DatablockGetBufferType _); done.
Qed.

End Blocks.

Section Generations.
Context `{Ext : Externals}.

(** The generation [ObtainGeneration] builds around a current superblock. *)
Let opened (cur : Superblock) : Generation :=
  {| Cur_SB := cur; New_SB := CloneInc cur; cblocks := []; vblocks := []; flushed := false |}.

(** [ObtainGeneration], step by step. *)
Lemma ObtainGeneration_unfold (id : UUID) (bs : BlockStore) :
  ObtainGeneration id bs =
  match _wlocks bs !! id with
  | Some true => Blocked bs
  | _ =>
      let bs1 := set_wlocks (insert id true) bs in
      let existingVer := GetStreamVersion (store bs) id in
      if existingVer =? 0 then Done (opened (NewSuperblock id)) bs1
      else match ReadSuperBlock (store bs) id existingVer with
           | None => Fatal CorruptSuperblock bs1
           | Some sbarr =>
               if record_matches id existingVer sbarr
               then Done (opened {| sb_uuid := id; sb_gen := existingVer;
                                    sb_root := record_root sbarr |}) bs1
               else Fatal CorruptSuperblockRecord bs1
           end
  end.
Proof.
  unfold ObtainGeneration, bind, get, lock_stream, UUIDToMapKey.
  assert (Hgo : forall bs1 : BlockStore, store bs1 = store bs ->
    match
      (if GetStreamVersion (store bs1) id =? 0 then ret (NewSuperblock id)
       else match ReadSuperBlock (store bs1) id (GetStreamVersion (store bs1) id) with
            | Some sbarr => DeserializeSuperblock id (GetStreamVersion (store bs1) id) sbarr
            | None => panic CorruptSuperblock
            end) bs1
    with
    | Done a s' => ret (opened a) s'
    | Fatal why s' => Fatal why s'
    | Blocked s' => Blocked s'
    end =
    if GetStreamVersion (store bs) id =? 0 then Done (opened (NewSuperblock id)) bs1
    else match ReadSuperBlock (store bs) id (GetStreamVersion (store bs) id) with
         | None => Fatal CorruptSuperblock bs1
         | Some sbarr =>
             if record_matches id (GetStreamVersion (store bs) id) sbarr
             then Done (opened {| sb_uuid := id; sb_gen := GetStreamVersion (store bs) id;
                                  sb_root := record_root sbarr |}) bs1
             else Fatal CorruptSuperblockRecord bs1
         end).
  { intros bs1 ->. destruct (_ =? 0); [done |].
    destruct (ReadSuperBlock _ _ _) as [arr|]; [| done].
    unfold DeserializeSuperblock. by destruct (record_matches _ _ _). }
  destruct (_wlocks bs !! id) as [[|]|]; [done | |]; cbn zeta; by rewrite <- Hgo.
Qed.

(** What a generation just obtained looks like. *)
Lemma ObtainGeneration_Done (id : UUID) (bs bs0 : BlockStore) (g : Generation) :
  ObtainGeneration id bs = Done g bs0 ->
  let v := GetStreamVersion (store bs) id in
  bs0 = set_wlocks (insert id true) bs
  /\ flushed g = false
  /\ sb_uuid (Cur_SB g) = id
  /\ sb_gen (Cur_SB g) = (if v =? 0 then 1 else v)
  /\ New_SB g = CloneInc (Cur_SB g).
Proof.
  rewrite ObtainGeneration_unfold. cbn zeta.
  assert (Hgo :
    (if GetStreamVersion (store bs) id =? 0
     then Done (opened (NewSuperblock id)) (set_wlocks (insert id true) bs)
     else match ReadSuperBlock (store bs) id (GetStreamVersion (store bs) id) with
          | None => Fatal CorruptSuperblock (set_wlocks (insert id true) bs)
          | Some sbarr =>
              if record_matches id (GetStreamVersion (store bs) id) sbarr
              then Done (opened {| sb_uuid := id; sb_gen := GetStreamVersion (store bs) id;
                                   sb_root := record_root sbarr |})
                        (set_wlocks (insert id true) bs)
              else Fatal CorruptSuperblockRecord (set_wlocks (insert id true) bs)
          end) = Done g bs0 ->
    bs0 = set_wlocks (insert id true) bs
    /\ flushed g = false
    /\ sb_uuid (Cur_SB g) = id
    /\ sb_gen (Cur_SB g) = (if GetStreamVersion (store bs) id =? 0 then 1
                            else GetStreamVersion (store bs) id)
    /\ New_SB g = CloneInc (Cur_SB g)).
  { destruct (_ =? 0).
    - by intros [= <- <-].
    - destruct (ReadSuperBlock _ _ _) as [arr|]; [| done].
      destruct (record_matches _ _ _); [| done]. by intros [= <- <-]. }
  destruct (_wlocks bs !! id) as [[|]|]; [done | exact Hgo | exact Hgo].
Qed.

(** The work of a writer before the commit always returns; it touches the
    allocator and the generation's block lists and root, nothing else. *)
Lemma do_ops_Done (ops : list WriterOp) (w : Writer) :
  exists w' : Writer,
    do_ops ops w = Done tt w'
    /\ Cur_SB (gen w') = Cur_SB (gen w)
    /\ sb_uuid (New_SB (gen w')) = sb_uuid (New_SB (gen w))
    /\ sb_gen (New_SB (gen w')) = sb_gen (New_SB (gen w))
    /\ flushed (gen w') = flushed (gen w)
    /\ _wlocks (gbs w') = _wlocks (gbs w)
    /\ store (gbs w') = store (gbs w)
    /\ cache (gbs w') = cache (gbs w).
Proof.
  revert w. induction ops as [|o ops IH]; intros w.
  - exists w. by cbn.
  - assert (Hop : exists w1 : Writer,
      do_op o w = Done tt w1
      /\ Cur_SB (gen w1) = Cur_SB (gen w)
      /\ sb_uuid (New_SB (gen w1)) = sb_uuid (New_SB (gen w))
      /\ sb_gen (New_SB (gen w1)) = sb_gen (New_SB (gen w))
      /\ flushed (gen w1) = flushed (gen w)
      /\ _wlocks (gbs w1) = _wlocks (gbs w)
      /\ store (gbs w1) = store (gbs w)
      /\ cache (gbs w1) = cache (gbs w)).
    { destruct o as [| | addr]; cbn;
        unfold AllocateCoreblock, AllocateVectorblock, UpdateRootAddr,
          bind, get, on_store, on_gen, allocateBlock, modify, ret;
        try destruct (receive (alloc (gbs w))) as [a al]; cbn;
        eexists; (split; [reflexivity |]); cbn; done. }
    destruct Hop as (w1 & Hd & H1 & H2 & H3 & H4 & H5 & H6 & H7).
    destruct (IH w1) as (w' & Hd' & H1' & H2' & H3' & H4' & H5' & H6' & H7').
    exists w'. split.
    + cbn. unfold bind. by rewrite Hd.
    + repeat split; congruence.
Qed.

(** One pass moves the stream from version [v] to the number of its
    generation, which is one more than [v], or 2 when [v] is 0. *)
Lemma write_pass_Done (id : UUID) (ops : list WriterOp) (bs bs' : BlockStore)
    (r : PassReport) :
  write_pass id ops bs = Done r bs' ->
  let v := GetStreamVersion (store bs) id in
  let n := wrap64 ((if v =? 0 then 1 else v) + 1) in
  r = {| pass_number := n; pass_error := None; pass_version := n |}
  /\ GetStreamVersion (store bs') id = n.
Proof.
  intros Hp v n. unfold write_pass, bind in Hp.
  destruct (ObtainGeneration id bs) as [g bs0| |] eqn:Hob; try discriminate.
  destruct (ObtainGeneration_Done _ _ _ _ Hob) as (Hbs0 & Hf & Hu & Hg & Hn).
  unfold with_generation, bind in Hp.
  destruct (do_ops_Done ops {| gen := g; gbs := bs0 |})
    as (w1 & Hd & H1 & H2 & H3 & H4 & H5 & H6 & H7).
  rewrite Hd in Hp. cbn in H1, H2, H3, H4, H5, H6, H7.
  rewrite Hf in H4.
  destruct (link_and_store_Done (gen w1) (gbs w1)) as (m & c & pl & _ & Hl).
  rewrite (Commit_unflushed _ _ _ H4 Hl) in Hp.
  destruct (m !! sb_root (New_SB (gen w1))) as [root|]; [| discriminate].
  cbn zeta in Hp.
  destruct (_wlocks _ !! Uuid (gen w1)) as [[|]|]; try discriminate.
  cbn in Hp. injection Hp as <- <-.
  assert (Hid : sb_uuid (New_SB (gen w1)) = id).
  { rewrite H2, Hn. cbn. exact Hu. }
  assert (Hnum : sb_gen (New_SB (gen w1)) = n).
  { rewrite H3, Hn. cbn. rewrite Hg. reflexivity. }
  unfold GetStreamVersion. cbn. rewrite Hid, Hnum, lookup_insert_eq. cbn.
  split; reflexivity.
Qed.

Lemma write_passes_Done (id : UUID) (passes : list (list WriterOp)) :
  forall (bs bs' : BlockStore) (reports : list PassReport),
    write_passes id passes bs = Done reports bs' ->
    let v := GetStreamVersion (store bs) id in
    let b := if v =? 0 then 1 else v in
    0 <= v ->
    b + Z.of_nat (length passes) < U64_MOD ->
    reports = map (fun i : nat =>
                     {| pass_number := b + 1 + Z.of_nat i;
                        pass_error := None;
                        pass_version := b + 1 + Z.of_nat i |})
                  (seq 0 (length passes)).
Proof.
  induction passes as [|ops passes IH]; intros bs bs' reports Hrun v b Hv Hfit.
  - cbn in Hrun. by injection Hrun as <- _.
  - cbn [write_passes] in Hrun. unfold bind in Hrun.
    destruct (write_pass id ops bs) as [r bs1| |] eqn:Hp; try discriminate.
    destruct (write_passes id passes bs1) as [rs bs2| |] eqn:Hps; try discriminate.
    injection Hrun as <- <-.
    destruct (write_pass_Done _ _ _ _ _ Hp) as (-> & Hv1).
    fold v in Hv1. fold b in Hv1.
    cbn [length] in Hfit. rewrite Nat2Z.inj_succ in Hfit.
    assert (Hb : 1 <= b) by (unfold b; destruct (Z.eqb_spec v 0); lia).
    assert (Hw : wrap64 (b + 1) = b + 1).
    { apply wrap64_small. unfold is_u64. lia. }
    fold b. rewrite Hw in *.
    specialize (IH _ _ _ Hps). cbn zeta in IH. rewrite Hv1 in IH.
    assert (Hnz : (b + 1 =? 0) = false) by (apply Z.eqb_neq; lia).
    rewrite Hnz in IH.
    cbn [length seq map]. f_equal.
    + change (wrap64 ((if GetStreamVersion (store bs) id =? 0 then 1
                       else GetStreamVersion (store bs) id) + 1))
        with (wrap64 (b + 1)).
      rewrite Hw. f_equal; lia.
    + rewrite IH by lia. rewrite <- seq_shift, map_map.
      apply map_ext. intros i. f_equal; lia.
Qed.

(** C1, as the code has it.  For a stream whose version is 0,
    [ObtainGeneration] takes [NewSuperblock], of generation 1, as current
    superblock and returns a generation whose [New_SB] has number 2 (and it
    does return unless the stream's mutex is held); every run of N write
    passes on the stream, each of which returns, reports no error, the
    generation numbers 2, 3, ..., N + 1 in this order, and after each
    commit the stream's version is that number, as long as N + 1 fits in
    64 bits. *)
Theorem fresh_stream_generations_start_at_two (bs : BlockStore) (id : UUID) :
  GetStreamVersion (store bs) id = 0 ->
  (forall (g : Generation) (bs' : BlockStore),
      ObtainGeneration id bs = Done g bs' ->
      Cur_SB g = NewSuperblock id /\ Number g = 2)
  /\ (_wlocks bs !! id <> Some true ->
      exists (g : Generation) (bs' : BlockStore), ObtainGeneration id bs = Done g bs')
  /\ (forall (passes : list (list WriterOp)) (reports : list PassReport)
             (bs' : BlockStore),
        Z.of_nat (length passes) + 1 < U64_MOD ->
        write_passes id passes bs = Done reports bs' ->
        reports = map (fun i : nat =>
                         {| pass_number := 2 + Z.of_nat i;
                            pass_error := None;
                            pass_version := 2 + Z.of_nat i |})
                      (seq 0 (length passes))).
Proof.
  intros Hv. split; [| split].
  - intros g bs'. rewrite ObtainGeneration_unfold. cbn zeta. rewrite Hv. cbn.
    destruct (_wlocks bs !! id) as [[|]|]; [done | |]; by intros [= <- _].
  - intros Hl. rewrite ObtainGeneration_unfold. cbn zeta. rewrite Hv. cbn.
    destruct (_wlocks bs !! id) as [[|]|]; [done | |]; by eexists _, _.
  - intros passes reports bs' Hfit Hrun.
    pose proof (write_passes_Done _ _ _ _ _ Hrun) as H. cbn zeta in H.
    rewrite Hv in H. cbn in H. apply H; lia.
Qed.

End Generations.

(** * The model at work on the reference instance *)

Section Runs.
Import Ref.

Lemma prepared_is_reached :
  (let! g := ObtainGeneration stream in
   with_generation g
     (let! v := AllocateVectorblock in UpdateRootAddr (vb_Identifier v))) fresh_store
  = Done (tt, gen prepared) (gbs prepared).
Proof. vm_compute. reflexivity. Qed.

Lemma prepared_commits : Commit prepared = Done (Some address_map, None) committed.
Proof. vm_compute. reflexivity. Defined.

Lemma prepared_links : link_and_store (gen prepared) (gbs prepared) = Done address_map linked.
Proof. vm_compute. reflexivity. Defined.

Lemma rootless_links : link_and_store (gen rootless) (gbs rootless) = Done address_map linked.
Proof. vm_compute. reflexivity. Defined.

Lemma reference_base_is_u64 : is_u64 RELOCATION_BASE.
Proof. vm_compute. split; [discriminate | reflexivity]. Defined.

(** C1, as claimed, fails: on a stream that was never written the first
    generation obtained has number 2, not 1, and the first commit is
    reported with number 2. *)
Lemma fresh_stream_first_number_is_not_one :
  GetStreamVersion (store fresh_store) stream = 0
  /\ (exists (g : Generation) (bs' : BlockStore),
        ObtainGeneration stream fresh_store = Done g bs'
        /\ Number g = 2 /\ Number g <> 1)
  /\ (exists bs' : BlockStore,
        write_passes stream [ [DoAllocateVectorblock; DoUpdateRootAddr 0xFF00000000000000] ]
                     fresh_store
        = Done [ {| pass_number := 2; pass_error := None; pass_version := 2 |} ] bs').
Proof.
  split; [reflexivity |]. split.
  - eexists _, _. split; [vm_compute; reflexivity |]. split; [reflexivity | discriminate].
  - eexists. vm_compute. reflexivity.
Qed.

Lemma fresh_stream_generations_start_at_two_witness :
  two_passes_reports
  = [ {| pass_number := 2; pass_error := None; pass_version := 2 |};
      {| pass_number := 3; pass_error := None; pass_version := 3 |} ].
Proof.
  apply (proj2 (proj2 (fresh_stream_generations_start_at_two fresh_store stream eq_refl))
           two_passes two_passes_reports (state_of two_passes_run)).
  - vm_compute. reflexivity.
  - vm_compute. reflexivity.
Defined.

Lemma commit_twice_already_flushed_witness :
  Commit {| gen := gen committed; gbs := fresh_store |}
  = Done (None, Some AlreadyFlushed) {| gen := gen committed; gbs := fresh_store |}.
Proof.
  exact (commit_twice_already_flushed prepared committed address_map fresh_store
           prepared_commits).
Defined.

Lemma commit_writes_superblock_before_version_witness :
  calls (store (gbs committed))
  = [CallWriteSuperBlock stream 2 [1]; CallSetStreamVersion stream 2]
  /\ GetStreamVersion (store (gbs committed)) stream = 2.
Proof.
  destruct (commit_writes_superblock_before_version prepared committed address_map
              prepared_commits)
    as (pl & buf & Hs & Hc & Hb & _ & _ & _ & Hv & _).
  rewrite Hs. split; [| exact Hv].
  rewrite Hc, Hb. reflexivity.
Defined.

Lemma commit_root_resolution_witness :
  New_SB (gen (state_of (Commit prepared)))
  = {| sb_uuid := stream; sb_gen := 2; sb_root := 1 |}
  /\ Commit rootless = Fatal RootResolutionFailure {| gen := gen rootless; gbs := linked |}.
Proof.
  split.
  - apply (proj2 (commit_root_resolution prepared address_map linked
                    eq_refl prepared_links) 1).
    vm_compute. reflexivity.
  - apply (proj1 (commit_root_resolution rootless address_map linked
                    eq_refl rootless_links)).
    vm_compute. reflexivity.
Defined.

Lemma load_superblock_cases_witness :
  LoadSuperblock stream 5 (gbs committed) = Done None (gbs committed)
  /\ LoadSuperblock stream 9 fresh_store = Done None fresh_store.
Proof.
  split.
  - pose proof (load_superblock_cases (gbs committed) stream 5) as H. cbn zeta in H.
    destruct H as (_ & _ & Habove & _). apply Habove.
    + vm_compute. discriminate.
    + vm_compute. reflexivity.
  - pose proof (load_superblock_cases fresh_store stream 9) as H. cbn zeta in H.
    destruct H as (Hnone & _). apply Hnone. reflexivity.
Defined.

Lemma read_datablock_miss_decodes_and_stamps_witness :
  let rv := OfVector {| vb_Identifier := 1; vb_Generation := 2; vb_PointWidth := 3;
                        vb_StartTime := 4; vb_payload := [] |} in
  ReadDatablock stream 1 2 3 4 (gbs committed)
  = Done rv (set_cache
               (fun _ => cachePut 1 rv (snd (cacheGet 1 (cache (gbs committed)))))
               (gbs committed)).
Proof.
  pose proof (read_datablock_miss_decodes_and_stamps (gbs committed) stream 1 2 3 4 eq_refl)
    as H.
  cbn zeta in H. destruct H as (_ & Hvector & _).
  cbn zeta. rewrite Hvector; [reflexivity |].
  vm_compute. reflexivity.
Defined.

Lemma read_datablock_strange_type_is_fatal_witness :
  ReadDatablock stream 9 2 3 4 (gbs committed)
  = Fatal CorruptBlockType
      (set_cache (fun _ => snd (cacheGet 9 (cache (gbs committed)))) (gbs committed)).
Proof.
  apply (read_datablock_strange_type_is_fatal (gbs committed) stream 9 2 3 4 eq_refl).
  - vm_compute. discriminate.
  - vm_compute. discriminate.
Defined.

Lemma allocations_strictly_increasing_witness :
  StronglySorted Z.lt [0xFF00000000000001; 0xFF00000000000002]
  /\ NoDup [0xFF00000000000001; 0xFF00000000000002].
Proof.
  apply (allocations_strictly_increasing
           [0xFF00000000000000] [0xFF00000000000001; 0xFF00000000000002]
           after_one after_three).
  - exact reference_base_is_u64.
  - exact (receive_run alloc_init).
  - exact (alloc_run_app _ _ _ _ _ (receive_run after_one)
             (receive_run (snd (receive after_one)))).
  - vm_compute. discriminate.
Defined.

Lemma allocator_wraps_to_base_witness :
  next_relocation_addr (U64_MOD - 1) = 0xFF00000000000000.
Proof.
  exact (proj1 (proj2 (allocator_wraps_to_base reference_base_is_u64))).
Defined.

End Runs.

(** * Further properties of the block store *)

Section Locking.
Context `{Ext : Externals}.

Lemma ObtainGeneration_not_blocked (id : UUID) (bs s : BlockStore) :
  _wlocks bs !! id <> Some true -> ObtainGeneration id bs <> Blocked s.
Proof.
  intros Hl. rewrite ObtainGeneration_unfold. cbn zeta.
  destruct (_wlocks bs !! id) as [[|]|]; [done | |];
    (destruct (_ =? 0); [done |]);
    (destruct (ReadSuperBlock _ _ _); [| done]);
    by destruct (record_matches _ _ _).
Qed.


(** X2. A [Commit] that succeeds found the mutex of the generation's
    stream locked and leaves it unlocked, the other mutexes being as they
    were; the next [ObtainGeneration] on that stream does not wait. *)
Theorem commit_releases_stream_lock (w w' : Writer) (m : gmap Z Z) :
  Commit w = Done (Some m, None) w' ->
  _wlocks (gbs w) !! Uuid (gen w) = Some true
  /\ _wlocks (gbs w') = <[Uuid (gen w) := false]> (_wlocks (gbs w))
  /\ (forall s : BlockStore, ObtainGeneration (Uuid (gen w)) (gbs w') <> Blocked s).
Proof.
  intros Hc.
  destruct (flushed (gen w)) eqn:Hf.
  { rewrite Commit_flushed in Hc by done. discriminate. }
  destruct (link_and_store_Done (gen w) (gbs w)) as (m' & c & pl & _ & Hl).
  rewrite (Commit_unflushed _ _ _ Hf Hl) in Hc.
  destruct (m' !! sb_root (New_SB (gen w))) as [r|]; [| discriminate].
  cbn zeta in Hc. cbn [_wlocks set_store set_cache] in Hc.
  destruct (_wlocks (gbs w) !! Uuid (gen w)) as [[|]|] eqn:Hlock; try discriminate.
  injection Hc as _ <-. cbn.
  split; [reflexivity |]. split; [reflexivity |].
  intros s. apply ObtainGeneration_not_blocked. cbn. by rewrite lookup_insert_eq.
Qed.

(** X3. When the provider reports a version for the stream and has no
    record for it, [ObtainGeneration] aborts after it has locked the
    stream's mutex: the mutex stays locked, and every later
    [ObtainGeneration] on the stream waits. *)
Theorem obtain_generation_corrupt_keeps_lock (id : UUID) (bs : BlockStore) :
  GetStreamVersion (store bs) id <> 0 ->
  _wlocks bs !! id <> Some true ->
  ReadSuperBlock (store bs) id (GetStreamVersion (store bs) id) = None ->
  let bs1 := set_wlocks (insert id true) bs in
  ObtainGeneration id bs = Fatal CorruptSuperblock bs1
  /\ ObtainGeneration id bs1 = Blocked bs1.
Proof.
  intros Hv Hl Hr bs1. split.
  - rewrite ObtainGeneration_unfold. cbn zeta.
    apply Z.eqb_neq in Hv. rewrite Hv, Hr.
    destruct (_wlocks bs !! id) as [[|]|]; done.
  - rewrite ObtainGeneration_unfold. unfold bs1. cbn. by rewrite lookup_insert_eq.
Qed.

(** X4. Whatever its outcome, [ObtainGeneration] writes nothing: provider,
    cache and allocator are as before, and so is the mutex of every other
    stream. *)
Theorem obtain_generation_writes_nothing (id : UUID) (bs : BlockStore) :
  let bs' := state_of (ObtainGeneration id bs) in
  store bs' = store bs /\ cache bs' = cache bs /\ alloc bs' = alloc bs
  /\ (forall id' : UUID, id' <> id -> _wlocks bs' !! id' = _wlocks bs !! id').
Proof.
  cbn zeta. rewrite ObtainGeneration_unfold. cbn zeta.
  assert (Hother : forall id' : UUID, id' <> id ->
            <[id := true]> (_wlocks bs) !! id' = _wlocks bs !! id')
    by (intros id' Hne; by rewrite lookup_insert_ne).
  destruct (_wlocks bs !! id) as [[|]|]; [done | |];
    (destruct (_ =? 0); [done |]);
    (destruct (ReadSuperBlock _ _ _); [| done]);
    by destruct (record_matches _ _ _).
Qed.

(** X5. A [Commit] that aborts because the root does not resolve leaves
    the generation as it was, not flushed, keeps the payloads that
    [LinkAndStore] wrote, and does not unlock: when the stream's mutex was
    held, every later [ObtainGeneration] on the stream waits. *)
Theorem commit_root_failure_keeps_stream_locked
    (w : Writer) (m : gmap Z Z) (bs1 : BlockStore) :
  flushed (gen w) = false ->
  link_and_store (gen w) (gbs w) = Done m bs1 ->
  m !! sb_root (New_SB (gen w)) = None ->
  _wlocks (gbs w) !! Uuid (gen w) = Some true ->
  let w1 := state_of (Commit w) in
  gen w1 = gen w
  /\ gbs w1 = bs1
  /\ ObtainGeneration (Uuid (gen w)) (gbs w1) = Blocked (gbs w1).
Proof.
  intros Hf Hl Hroot Hlock. cbn zeta.
  rewrite (Commit_unflushed _ _ _ Hf Hl), Hroot. cbn.
  split; [reflexivity |]. split; [reflexivity |].
  destruct (link_and_store_frame _ _ _ _ Hl) as (Hw & _).
  rewrite ObtainGeneration_unfold. by rewrite Hw, Hlock.
Qed.

End Locking.

Section Publishing.
Context `{Ext : Externals}.

(** What any [Commit] leaves of the superblock records and versions. *)
Lemma Commit_provider (w : Writer) :
  let w1 := state_of (Commit w) in
  let nsb := New_SB (gen w) in
  (versions (store (gbs w1)) = versions (store (gbs w))
   /\ superblocks (store (gbs w1)) = superblocks (store (gbs w)))
  \/ (exists buf : bytes,
        versions (store (gbs w1)) = <[sb_uuid nsb := sb_gen nsb]> (versions (store (gbs w)))
        /\ superblocks (store (gbs w1))
           = <[(sb_uuid nsb, sb_gen nsb) := buf]> (superblocks (store (gbs w)))).
Proof.
  cbn zeta. destruct (flushed (gen w)) eqn:Hf.
  { rewrite Commit_flushed by done. by left. }
  destruct (link_and_store_Done (gen w) (gbs w)) as (m & c & pl & _ & Hl).
  rewrite (Commit_unflushed _ _ _ Hf Hl).
  destruct (m !! sb_root (New_SB (gen w))) as [r|]; [| by left].
  right. cbn zeta. eexists.
  destruct (_wlocks _ !! Uuid (gen w)) as [[|]|]; cbn; split; reflexivity.
Qed.

(** X6. No [Commit], whatever its outcome, touches the version of another
    stream or the superblock record of another stream or of another
    generation of its own stream: the records of earlier generations stay
    as they were written. *)
Theorem commit_keeps_other_records (w : Writer) :
  let w1 := state_of (Commit w) in
  let nsb := New_SB (gen w) in
  (forall id' : UUID,
      id' <> sb_uuid nsb ->
      GetStreamVersion (store (gbs w1)) id' = GetStreamVersion (store (gbs w)) id')
  /\ (forall (id' : UUID) (g' : Z),
        (id', g') <> (sb_uuid nsb, sb_gen nsb) ->
        ReadSuperBlock (store (gbs w1)) id' g' = ReadSuperBlock (store (gbs w)) id' g').
Proof.
  cbn zeta. unfold GetStreamVersion, ReadSuperBlock.
  destruct (Commit_provider w) as [(Hv & Hs) | (buf & Hv & Hs)]; cbn zeta in *;
    rewrite Hv, Hs; split; try done.
  - intros id' Hne. by rewrite lookup_insert_ne.
  - intros id' g' Hne. by rewrite lookup_insert_ne.
Qed.

(** The provider after a [Commit] that succeeded. *)
Lemma Commit_Done_store (w w' : Writer) (m : gmap Z Z) :
  Commit w = Done (Some m, None) w' ->
  let nsb := New_SB (gen w') in
  sb_uuid nsb = sb_uuid (New_SB (gen w))
  /\ sb_gen nsb = sb_gen (New_SB (gen w))
  /\ GetStreamVersion (store (gbs w')) (sb_uuid nsb) = sb_gen nsb
  /\ ReadSuperBlock (store (gbs w')) (sb_uuid nsb) (sb_gen nsb) = Some (Serialize nsb)
  /\ _wlocks (gbs w') !! Uuid (gen w) = Some false.
Proof.
  intros Hc.
  destruct (flushed (gen w)) eqn:Hf.
  { rewrite Commit_flushed in Hc by done. discriminate. }
  destruct (link_and_store_Done (gen w) (gbs w)) as (m' & c & pl & _ & Hl).
  rewrite (Commit_unflushed _ _ _ Hf Hl) in Hc.
  destruct (m' !! sb_root (New_SB (gen w))) as [r|]; [| discriminate].
  cbn zeta in Hc.
  destruct (_wlocks _ !! Uuid (gen w)) as [[|]|]; try discriminate.
  injection Hc as _ <-. cbn.
  split; [reflexivity |]. split; [reflexivity |].
  unfold GetStreamVersion, ReadSuperBlock. cbn.
  rewrite !lookup_insert_eq. done.
Qed.

(** X7. After a [Commit] that succeeded with a generation number other
    than 0, and with a record format that reads back what [Serialize]
    wrote, [LoadSuperblock] returns the committed superblock (stream,
    number and durable root) both for the sentinel and for the number
    itself, and leaves the block store alone. *)
Theorem commit_then_load_latest (w w' : Writer) (m : gmap Z Z) :
  Commit w = Done (Some m, None) w' ->
  let nsb := New_SB (gen w') in
  sb_gen nsb <> 0 ->
  record_matches (sb_uuid nsb) (sb_gen nsb) (Serialize nsb) = true ->
  record_root (Serialize nsb) = sb_root nsb ->
  LoadSuperblock (sb_uuid nsb) LatestGeneration (gbs w') = Done (Some nsb) (gbs w')
  /\ LoadSuperblock (sb_uuid nsb) (sb_gen nsb) (gbs w') = Done (Some nsb) (gbs w').
Proof.
  intros Hc nsb Hg Hm Hr.
  destruct (Commit_Done_store _ _ _ Hc) as (_ & _ & Hv & Hs & _). fold nsb in Hv, Hs.
  assert (Hload : LoadSuperblock (sb_uuid nsb) (sb_gen nsb) (gbs w') = Done (Some nsb) (gbs w')).
  { rewrite LoadSuperblock_unfold. cbn zeta. rewrite Hv.
    apply Z.eqb_neq in Hg. rewrite Hg.
    assert (Hres : (if sb_gen nsb =? LatestGeneration then sb_gen nsb else sb_gen nsb)
                   = sb_gen nsb)
      by (destruct (sb_gen nsb =? LatestGeneration); reflexivity).
    rewrite Hres.
    destruct (Z.gtb_spec (sb_gen nsb) (sb_gen nsb)); [lia |].
    rewrite Hs, Hm, Hr. by destruct nsb. }
  split; [| exact Hload].
  rewrite LoadSuperblock_latest, Hv. exact Hload.
Qed.

(** X8. Under the same conditions, for a generation whose two superblocks
    name the same stream, the next [ObtainGeneration] on the stream returns
    at once, with the committed superblock as its current one and a new
    superblock that carries the next number and, to begin with, the
    committed root. *)
Theorem commit_then_obtain_continues (w w' : Writer) (m : gmap Z Z) :
  Commit w = Done (Some m, None) w' ->
  let nsb := New_SB (gen w') in
  Uuid (gen w) = sb_uuid nsb ->
  sb_gen nsb <> 0 ->
  record_matches (sb_uuid nsb) (sb_gen nsb) (Serialize nsb) = true ->
  record_root (Serialize nsb) = sb_root nsb ->
  ObtainGeneration (sb_uuid nsb) (gbs w')
  = Done {| Cur_SB := nsb;
            New_SB := {| sb_uuid := sb_uuid nsb; sb_gen := wrap64 (sb_gen nsb + 1);
                         sb_root := sb_root nsb |};
            cblocks := []; vblocks := []; flushed := false |}
         (set_wlocks (insert (sb_uuid nsb) true) (gbs w')).
Proof.
  intros Hc nsb Hu Hg Hm Hr.
  destruct (Commit_Done_store _ _ _ Hc) as (_ & _ & Hv & Hs & Hl).
  fold nsb in Hv, Hs. rewrite Hu in Hl.
  rewrite ObtainGeneration_unfold. cbn zeta. rewrite Hl, Hv.
  apply Z.eqb_neq in Hg. rewrite Hg, Hs, Hm, Hr. by destruct nsb.
Qed.

End Publishing.

Section CachedReads.
Context `{Ext : Externals}.

Lemma cacheGet_hit (addr : Z) (c : Cache) (d : Datablock) :
  cache_find addr (cacheitems c) = Some d ->
  cacheGet addr c =
  (Some d, {| cacheitems := (addr, d) :: cache_remove addr (cacheitems c);
              cachemax := cachemax c;
              cachemiss := cachemiss c;
              cachehit := wrap64 (cachehit c + 1) |}).
Proof. intros H. unfold cacheGet. by rewrite H. Qed.

Lemma ReadDatablock_hit (bs : BlockStore) (uuid : UUID) (addr g pw st : Z) (d : Datablock) :
  cache_find addr (cacheitems (cache bs)) = Some d ->
  ReadDatablock uuid addr g pw st bs
  = Done d (set_cache (fun _ => snd (cacheGet addr (cache bs))) bs).
Proof.
  intros Hhit. unfold ReadDatablock, bind, get. cbn.
  by rewrite (cacheGet_hit _ _ _ Hhit).
Qed.

(** [ReadDatablock] on an address that is not cached. *)
Lemma ReadDatablock_miss (bs : BlockStore) (uuid : UUID) (addr g pw st : Z) :
  cache_find addr (cacheitems (cache bs)) = None ->
  let trimbuf := Read (store bs) uuid addr in
  let missed := snd (cacheGet addr (cache bs)) in
  ReadDatablock uuid addr g pw st bs =
  match DatablockGetBufferType trimbuf with
  | Core =>
      let rv := OfCore {| cb_Identifier := addr; cb_Generation := g;
                          cb_PointWidth := pw; cb_StartTime := st;
                          cb_payload :=
                            cb_payload (Coreblock_Deserialize zero_Coreblock trimbuf) |} in
      Done rv (set_cache (fun _ => cachePut addr rv missed) bs)
  | Vector =>
      let rv := OfVector {| vb_Identifier := addr; vb_Generation := g;
                            vb_PointWidth := pw; vb_StartTime := st;
                            vb_payload :=
                              vb_payload (Vectorblock_Deserialize zero_Vectorblock trimbuf) |} in
      Done rv (set_cache (fun _ => cachePut addr rv missed) bs)
  | Bad => Fatal CorruptBlockType (set_cache (fun _ => missed) bs)
  end.
Proof.
  intros Hmiss. cbn zeta. unfold ReadDatablock, bind, get. cbn.
  rewrite (cacheGet_miss _ _ Hmiss). cbn.
  destruct (DatablockGetBufferType _); reflexivity.
Qed.

(** X9. When the address is in the cache, [ReadDatablock] returns the
    cached block as it is, for every stream identifier and every
    generation, point width and start time passed: the provider is not
    read, the block is not stamped again, and the provider is unchanged. *)
Theorem read_datablock_hit_ignores_arguments
    (bs : BlockStore) (addr : Z) (d : Datablock) :
  cache_find addr (cacheitems (cache bs)) = Some d ->
  forall (uuid : UUID) (g pw st : Z),
  exists bs' : BlockStore,
    ReadDatablock uuid addr g pw st bs = Done d bs'
    /\ store bs' = store bs
    /\ cache_find addr (cacheitems (cache bs')) = Some d.
Proof.
  intros Hhit uuid g pw st. eexists. split; [by apply ReadDatablock_hit |].
  split; [reflexivity |].
  cbn. rewrite (cacheGet_hit _ _ _ Hhit). cbn. by rewrite Z.eqb_refl.
Qed.

(** X10. After a [ReadDatablock] that missed the cache and returned, with
    room in the cache for at least one entry, reading the same address
    again returns the very same block, still stamped with the arguments of
    the first call, whatever stream and stamps the second call names; the
    first call counted one miss, the second one hit. *)
Theorem read_datablock_second_read_is_cached
    (bs bs' : BlockStore) (uuid : UUID) (addr g pw st : Z) (d : Datablock) :
  cache_find addr (cacheitems (cache bs)) = None ->
  1 <= cachemax (cache bs) ->
  ReadDatablock uuid addr g pw st bs = Done d bs' ->
  forall (uuid2 : UUID) (g2 pw2 st2 : Z),
  exists bs'' : BlockStore,
    ReadDatablock uuid2 addr g2 pw2 st2 bs' = Done d bs''
    /\ store bs'' = store bs
    /\ cachemiss (cache bs'') = wrap64 (cachemiss (cache bs) + 1)
    /\ cachehit (cache bs'') = wrap64 (cachehit (cache bs) + 1).
Proof.
  intros Hmiss Hmax Hread uuid2 g2 pw2 st2.
  assert (Hfirst : bs' = set_cache (fun _ => cachePut addr d (snd (cacheGet addr (cache bs)))) bs).
  { rewrite (ReadDatablock_miss _ _ _ _ _ _ Hmiss) in Hread. cbn zeta in Hread.
    destruct (DatablockGetBufferType _); [| | discriminate];
      by injection Hread as <- <-. }
  assert (Hfound : cache_find addr (cacheitems (cache bs')) = Some d).
  { rewrite Hfirst. cbn [cache set_cache]. apply cache_find_cachePut.
    by rewrite (cacheGet_miss _ _ Hmiss). }
  eexists. split; [by apply ReadDatablock_hit |].
  cbn [store cache set_cache].
  rewrite (cacheGet_hit _ _ _ Hfound). cbn [snd cachemiss cachehit].
  rewrite Hfirst. cbn [store cache set_cache].
  rewrite (cacheGet_miss _ _ Hmiss). done.
Qed.

End CachedReads.

Section AllocatedBlocks.
Context `{Ext : Externals}.

Lemma alloc_run_from_start (got1 got2 : list Z) (al1 al2 : Alloc) :
  is_u64 RELOCATION_BASE ->
  alloc_run alloc_init got1 al1 ->
  alloc_run al1 got2 al2 ->
  RELOCATION_BASE + Z.of_nat (length got1 + length got2) <= U64_MOD ->
  got1 ++ got2 = map (fun i => RELOCATION_BASE + Z.of_nat i)
                     (seq 0 (length got1 + length got2)).
Proof.
  intros [HB0 HB1] H1 H2 Hfit.
  rewrite (alloc_run_init _ _ (alloc_run_app _ _ _ _ _ H1 H2)) at 1.
  rewrite length_app. apply sent_from_consecutive; lia.
Qed.

(** One step of a writer: the blocks it appends and the addresses it
    takes from the channel. *)
Lemma do_op_allocates (o : WriterOp) (w : Writer) :
  exists (w1 : Writer) (newc : list Coreblock) (newv : list Vectorblock),
    do_op o w = Done tt w1
    /\ cblocks (gen w1) = cblocks (gen w) ++ newc
    /\ vblocks (gen w1) = vblocks (gen w) ++ newv
    /\ alloc_run (alloc (gbs w)) (map cb_Identifier newc ++ map vb_Identifier newv)
                 (alloc (gbs w1))
    /\ Forall (fun c => cb_Generation c = Number (gen w)) newc
    /\ Forall (fun v => vb_Generation v = Number (gen w)) newv
    /\ (length newc + length newv <= 1)%nat
    /\ Number (gen w1) = Number (gen w).
Proof.
  destruct o as [| | addr]; cbn [do_op].
  - destruct (AllocateCoreblock_receives w) as (c & w1 & Hd & Hrun & Hg & Hc).
    exists w1, [c], []. unfold bind. rewrite Hd. cbn.
    revert Hd. unfold AllocateCoreblock, bind, get, on_store, on_gen, allocateBlock, modify, ret.
    destruct (receive (alloc (gbs w))) as [a al]. cbn. intros [= <- <-]. cbn in *.
    rewrite ?app_nil_r. repeat split; try done; by repeat constructor.
  - destruct (AllocateVectorblock_receives w) as (v & w1 & Hd & Hrun & Hg & Hv).
    exists w1, [], [v]. unfold bind. rewrite Hd. cbn.
    revert Hd. unfold AllocateVectorblock, bind, get, on_store, on_gen, allocateBlock, modify, ret.
    destruct (receive (alloc (gbs w))) as [a al]. cbn. intros [= <- <-]. cbn in *.
    rewrite ?app_nil_r. repeat split; try done; by repeat constructor.
  - exists {| gen := set_New_SB_root addr (gen w); gbs := gbs w |}, [], [].
    cbn. rewrite !app_nil_r. repeat split; try done; try constructor. lia.
Qed.

Lemma do_ops_allocates (ops : list WriterOp) (w : Writer) :
  exists (w' : Writer) (newc : list Coreblock) (newv : list Vectorblock) (ids : list Z),
    do_ops ops w = Done tt w'
    /\ cblocks (gen w') = cblocks (gen w) ++ newc
    /\ vblocks (gen w') = vblocks (gen w) ++ newv
    /\ alloc_run (alloc (gbs w)) ids (alloc (gbs w'))
    /\ ids ≡ₚ map cb_Identifier newc ++ map vb_Identifier newv
    /\ Forall (fun c => cb_Generation c = Number (gen w)) newc
    /\ Forall (fun v => vb_Generation v = Number (gen w)) newv
    /\ (length ids <= length ops)%nat.
Proof.
  revert w. induction ops as [|o ops IH]; intros w.
  - exists w, [], [], []. cbn. rewrite !app_nil_r.
    repeat split; try done; try constructor.
  - destruct (do_op_allocates o w) as (w1 & c1 & v1 & Hd & Hc1 & Hv1 & Hrun1 & Hgc1 & Hgv1 & Hlen1 & Hn).
    destruct (IH w1) as (w' & c2 & v2 & ids & Hd' & Hc2 & Hv2 & Hrun2 & Hperm & Hgc2 & Hgv2 & Hlen2).
    exists w', (c1 ++ c2), (v1 ++ v2), ((map cb_Identifier c1 ++ map vb_Identifier v1) ++ ids).
    split; [cbn; unfold bind; by rewrite Hd |].
    split; [by rewrite Hc2, Hc1, app_assoc |].
    split; [by rewrite Hv2, Hv1, app_assoc |].
    split; [by eapply alloc_run_app |].
    split.
    { rewrite Hperm, !map_app, <- !app_assoc.
      apply Permutation_app_head.
      rewrite !app_assoc. apply Permutation_app_tail, Permutation_app_comm. }
    rewrite Hn in Hgc2, Hgv2.
    split; [by apply Forall_app |].
    split; [by apply Forall_app |].
    rewrite !length_app, !length_map. cbn [length]. lia.
Qed.

(** X11. Whatever a writer does with its generation (any sequence of
    [AllocateCoreblock], [AllocateVectorblock] and [UpdateRootAddr]), the
    calls return, the block lists only grow, every new block carries the
    generation's number, and, while the counter stays inside 64 bits, the
    new blocks have identifiers that differ from one another and from every
    address handed out before, all of them at or above the relocation base
    plus the number of earlier allocations. *)
Theorem allocated_blocks_distinct_and_stamped
    (ops : list WriterOp) (w : Writer) (got0 : list Z) :
  is_u64 RELOCATION_BASE ->
  alloc_run alloc_init got0 (alloc (gbs w)) ->
  RELOCATION_BASE + Z.of_nat (length got0 + length ops) <= U64_MOD ->
  exists (w' : Writer) (newc : list Coreblock) (newv : list Vectorblock),
    do_ops ops w = Done tt w'
    /\ cblocks (gen w') = cblocks (gen w) ++ newc
    /\ vblocks (gen w') = vblocks (gen w) ++ newv
    /\ Forall (fun c => cb_Generation c = Number (gen w)) newc
    /\ Forall (fun v => vb_Generation v = Number (gen w)) newv
    /\ NoDup (got0 ++ map cb_Identifier newc ++ map vb_Identifier newv)
    /\ Forall (fun a => RELOCATION_BASE + Z.of_nat (length got0) <= a < U64_MOD)
              (map cb_Identifier newc ++ map vb_Identifier newv).
Proof.
  intros HB Hrun0 Hfit.
  destruct (do_ops_allocates ops w)
    as (w' & newc & newv & ids & Hd & Hc & Hv & Hrun & Hperm & Hgc & Hgv & Hlen).
  exists w', newc, newv.
  do 5 (split; [done |]).
  assert (Hfit' : RELOCATION_BASE + Z.of_nat (length got0 + length ids) <= U64_MOD) by lia.
  pose proof (alloc_run_from_start _ _ _ _ HB Hrun0 Hrun Hfit') as Hall.
  rewrite <- Hperm. split.
  - rewrite Hall. apply consecutive_NoDup.
  - apply Forall_forall. intros x Hx.
    apply list_elem_of_lookup in Hx as (j & Hj).
    assert (Hjlt : (j < length ids)%nat) by (by eapply lookup_lt_Some).
    assert (Hat : (got0 ++ ids) !! (length got0 + j)%nat = Some x).
    { rewrite lookup_app_r by lia. by replace (length got0 + j - length got0)%nat with j by lia. }
    rewrite Hall in Hat.
    apply list_lookup_fmap_Some in Hat as (i & Hx & Hi).
    apply lookup_seq in Hi. destruct Hi as (Hi & _). subst i x. lia.
Qed.

End AllocatedBlocks.

Section AddressReuse.
Context `{Ext : Externals}.

Lemma next_relocation_addr_top :
  is_u64 RELOCATION_BASE -> next_relocation_addr (U64_MOD - 1) = RELOCATION_BASE.
Proof.
  intros [HB0 _]. unfold next_relocation_addr.
  replace (wrap64 (U64_MOD - 1 + 1)) with 0.
  - case_eq (0 <? RELOCATION_BASE); lia.
  - unfold wrap64. replace (U64_MOD - 1 + 1) with U64_MOD by lia.
    by rewrite Z.mod_same.
Qed.

(** The counter is back where it was after 2^64 - RELOCATION_BASE steps. *)
Lemma iter_next_period (a : Z) :
  is_u64 RELOCATION_BASE -> RELOCATION_BASE <= a < U64_MOD ->
  Nat.iter (Z.to_nat (U64_MOD - RELOCATION_BASE)) next_relocation_addr a = a.
Proof.
  intros HB Ha. pose proof HB as [HB0 HB1].
  replace (Z.to_nat (U64_MOD - RELOCATION_BASE))
    with (Z.to_nat (a - RELOCATION_BASE) + (1 + Z.to_nat (U64_MOD - 1 - a)))%nat by lia.
  rewrite Nat.iter_add.
  change (Nat.iter (1 + Z.to_nat (U64_MOD - 1 - a)) next_relocation_addr a)
    with (next_relocation_addr (Nat.iter (Z.to_nat (U64_MOD - 1 - a)) next_relocation_addr a)).
  rewrite (iter_next_consecutive a) by lia.
  replace (a + Z.of_nat (Z.to_nat (U64_MOD - 1 - a))) with (U64_MOD - 1) by lia.
  rewrite (next_relocation_addr_top HB).
  rewrite iter_next_consecutive by lia. lia.
Qed.

Lemma iter_next_ge (a : Z) (k : nat) :
  is_u64 RELOCATION_BASE -> RELOCATION_BASE <= a < U64_MOD ->
  RELOCATION_BASE <= Nat.iter k next_relocation_addr a < U64_MOD.
Proof.
  intros HB Ha. destruct k as [|k]; [done |]. cbn [Nat.iter nat_rect]. split.
  - apply next_relocation_addr_ge.
  - by apply next_relocation_addr_u64.
Qed.

Lemma sent_from_lookup (a : Z) (n k : nat) :
  (k < n)%nat -> sent_from a n !! k = Some (Nat.iter k next_relocation_addr a).
Proof.
  revert a k. induction n as [|n IH]; intros a k Hk; [lia |].
  destruct k as [|k]; [done |].
  cbn [sent_from]. rewrite lookup_cons_ne_0 by done. cbn [Nat.pred].
  rewrite IH by lia. f_equal. symmetry. apply Nat.iter_succ_r.
Qed.

(** X12. Addresses come back: in every run from the start of the block
    store, the address received 2^64 - RELOCATION_BASE allocations after
    another one is that same address.  Uniqueness of temporary addresses
    holds only within that many consecutive allocations. *)
Theorem allocator_addresses_repeat (got : list Z) (al : Alloc) (k : nat) :
  is_u64 RELOCATION_BASE ->
  alloc_run alloc_init got al ->
  let period := Z.to_nat (U64_MOD - RELOCATION_BASE) in
  (k + period < length got)%nat ->
  got !! (k + period)%nat = got !! k.
Proof.
  intros HB Hrun period Hlen.
  rewrite (alloc_run_init _ _ Hrun).
  assert (Hk : (k < length got)%nat) by (clear -Hlen; clearbody period; lia).
  rewrite (sent_from_lookup _ _ (k + period)) by exact Hlen.
  rewrite (sent_from_lookup _ _ k) by exact Hk. f_equal.
  rewrite Nat.add_comm, Nat.iter_add.
  unfold period. rewrite iter_next_period; [done | done |].
  apply iter_next_ge; [done |]. destruct HB. lia.
Qed.

End AddressReuse.

Section MapKeys.

(** X13. [UUIDToMapKey] always yields sixteen bytes; an identifier of
    sixteen bytes is its own key, so two of them with the same key are
    equal; a longer identifier is cut to its first sixteen bytes and a
    shorter one is filled with zero bytes, so identifiers that agree on
    these share a key, and with it a mutex. *)
Theorem uuid_map_key_sixteen_bytes (id : bytes) :
  length (Key.UUIDToMapKey id) = 16%nat
  /\ (length id = 16%nat -> Key.UUIDToMapKey id = id)
  /\ (forall id' : bytes,
        length id = 16%nat -> length id' = 16%nat ->
        Key.UUIDToMapKey id = Key.UUIDToMapKey id' -> id = id')
  /\ ((16 <= length id)%nat -> Key.UUIDToMapKey id = take 16 id)
  /\ ((length id < 16)%nat ->
      Key.UUIDToMapKey id = id ++ replicate (16 - length id) 0
      /\ Key.UUIDToMapKey (id ++ [0]) = Key.UUIDToMapKey id).
Proof.
  assert (Hfull : forall x : bytes, (16 <= length x)%nat -> Key.UUIDToMapKey x = take 16 x).
  { intros x Hx. unfold Key.UUIDToMapKey.
    replace (16 - length x)%nat with 0%nat by lia. apply app_nil_r. }
  assert (Hsame : forall x : bytes, length x = 16%nat -> Key.UUIDToMapKey x = x).
  { intros x Hx. rewrite Hfull by lia. apply take_ge. lia. }
  split; [| split; [| split; [| split]]].
  - unfold Key.UUIDToMapKey. rewrite length_app, length_take, length_replicate. lia.
  - apply Hsame.
  - intros id' H1 H2. by rewrite !Hsame.
  - apply Hfull.
  - intros Hlt. unfold Key.UUIDToMapKey.
    rewrite (take_ge id) by lia. split; [done |].
    rewrite length_app. cbn [length].
    rewrite (take_ge (id ++ [0])) by (rewrite length_app; cbn; lia).
    rewrite <- app_assoc. f_equal.
    replace (16 - length id)%nat with (S (16 - (length id + 1)))%nat by lia.
    reflexivity.
Qed.

End MapKeys.

Section Passes.
Context `{Ext : Externals}.


(** X15. On a stream that already has version [v] >= 1, a run of N write
    passes that returns reports, in order, the generation numbers v + 1,
    ..., v + N, each with no error and with the stream's version equal to
    the number after the commit, as long as v + N fits in 64 bits. *)
Theorem existing_stream_numbers_continue
    (id : UUID) (passes : list (list WriterOp)) (bs bs' : BlockStore)
    (reports : list PassReport) :
  1 <= GetStreamVersion (store bs) id ->
  GetStreamVersion (store bs) id + Z.of_nat (length passes) < U64_MOD ->
  write_passes id passes bs = Done reports bs' ->
  reports = map (fun i : nat =>
                   {| pass_number := GetStreamVersion (store bs) id + 1 + Z.of_nat i;
                      pass_error := None;
                      pass_version := GetStreamVersion (store bs) id + 1 + Z.of_nat i |})
                (seq 0 (length passes)).
Proof.
  intros Hv Hfit Hrun.
  pose proof (write_passes_Done _ _ _ _ _ Hrun) as H. cbn zeta in H.
  assert (Hnz : (GetStreamVersion (store bs) id =? 0) = false) by (apply Z.eqb_neq; lia).
  rewrite Hnz in H. apply H; lia.
Qed.

Lemma ObtainGeneration_store (id : UUID) (bs : BlockStore) :
  store (state_of (ObtainGeneration id bs)) = store bs.
Proof.
  rewrite ObtainGeneration_unfold. cbn zeta.
  destruct (_wlocks bs !! id) as [[|]|]; [done | |];
    (destruct (_ =? 0); [done |]);
    (destruct (ReadSuperBlock _ _ _); [| done]);
    by destruct (record_matches _ _ _).
Qed.

(** X16. A write pass on one stream, whatever its outcome, leaves the
    version of every other stream and the superblock records of every
    other stream as they were: the generation it obtains writes under the
    identifier it was obtained for. *)
Theorem write_pass_keeps_other_streams
    (id : UUID) (ops : list WriterOp) (bs : BlockStore) :
  let bs' := state_of (write_pass id ops bs) in
  forall id' : UUID,
    id' <> id ->
    GetStreamVersion (store bs') id' = GetStreamVersion (store bs) id'
    /\ (forall g' : Z,
          ReadSuperBlock (store bs') id' g' = ReadSuperBlock (store bs) id' g').
Proof.
  cbn zeta. intros id' Hne.
  pose proof (ObtainGeneration_store id bs) as Hst.
  unfold write_pass, bind.
  destruct (ObtainGeneration id bs) as [g bs0 | why s | s] eqn:Hob; cbn in Hst;
    [| cbn [state_of]; by rewrite Hst | cbn [state_of]; by rewrite Hst].
  destruct (ObtainGeneration_Done _ _ _ _ Hob) as (_ & _ & Hu & _ & Hn).
  unfold with_generation, bind.
  destruct (do_ops_Done ops {| gen := g; gbs := bs0 |})
    as (w1 & Hd & _ & H2 & _ & _ & _ & H6 & _).
  rewrite Hd. cbn in H2, H6.
  assert (Hid : sb_uuid (New_SB (gen w1)) = id) by (rewrite H2, Hn; exact Hu).
  assert (Hstate : forall o : outcome Writer (option (gmap Z Z) * option error),
    state_of
      match
        match o with
        | Done a w => Done (a, gen w) (gbs w)
        | Fatal why w => Fatal why (gbs w)
        | Blocked w => Blocked (gbs w)
        end
      with
      | Done a s' =>
          match get s' with
          | Done a0 s'0 =>
              ret {| pass_number := Number (snd a); pass_error := snd (fst a);
                     pass_version := GetStreamVersion (store a0) id |} s'0
          | Fatal why s'0 => Fatal why s'0
          | Blocked s'0 => Blocked s'0
          end
      | Fatal why s' => Fatal why s'
      | Blocked s' => Blocked s'
      end = gbs (state_of o)) by (by intros [? ?| ? ?| ?]).
  rewrite Hstate. unfold GetStreamVersion, ReadSuperBlock.
  destruct (Commit_provider w1) as [(Hv & Hs) | (buf & Hv & Hs)]; cbn zeta in Hv, Hs;
    rewrite Hv, Hs, H6, Hst; [done |].
  rewrite Hid. split.
  - by rewrite lookup_insert_ne.
  - intros g'. rewrite lookup_insert_ne; [done |]. congruence.
Qed.

End Passes.

(** * The further properties on the reference instance *)

Section MoreRuns.
Import Ref Edge.


Lemma commit_releases_stream_lock_witness :
  _wlocks (gbs committed) = <[stream := false]> (_wlocks (gbs prepared)).
Proof.
  exact (proj1 (proj2 (commit_releases_stream_lock prepared committed address_map
                         prepared_commits))).
Defined.

Lemma obtain_generation_corrupt_keeps_lock_witness :
  ObtainGeneration stream torn_store
  = Fatal CorruptSuperblock (set_wlocks (insert stream true) torn_store).
Proof.
  refine (proj1 (obtain_generation_corrupt_keeps_lock stream torn_store _ _ _)).
  - vm_compute. discriminate.
  - vm_compute. discriminate.
  - vm_compute. reflexivity.
Defined.

Lemma commit_root_failure_keeps_stream_locked_witness :
  ObtainGeneration stream (gbs (state_of (Commit rootless)))
  = Blocked (gbs (state_of (Commit rootless))).
Proof.
  refine (proj2 (proj2 (commit_root_failure_keeps_stream_locked rootless address_map linked
                          eq_refl rootless_links _ _))).
  - vm_compute. reflexivity.
  - vm_compute. reflexivity.
Defined.

Lemma commit_then_load_latest_witness :
  LoadSuperblock stream LatestGeneration (gbs committed)
  = Done (Some {| sb_uuid := stream; sb_gen := 2; sb_root := 1 |}) (gbs committed).
Proof.
  refine (proj1 (commit_then_load_latest prepared committed address_map
                   prepared_commits _ _ _)).
  - vm_compute. discriminate.
  - vm_compute. reflexivity.
  - vm_compute. reflexivity.
Defined.

Lemma commit_then_obtain_continues_witness :
  ObtainGeneration stream (gbs committed)
  = Done {| Cur_SB := {| sb_uuid := stream; sb_gen := 2; sb_root := 1 |};
            New_SB := {| sb_uuid := stream; sb_gen := 3; sb_root := 1 |};
            cblocks := []; vblocks := []; flushed := false |}
         (set_wlocks (insert stream true) (gbs committed)).
Proof.
  refine (commit_then_obtain_continues prepared committed address_map
            prepared_commits _ _ _ _).
  - vm_compute. reflexivity.
  - vm_compute. discriminate.
  - vm_compute. reflexivity.
  - vm_compute. reflexivity.
Defined.

Lemma read_once_has_block_one :
  cache_find 1 (cacheitems (cache read_once)) = Some block_one.
Proof. vm_compute. reflexivity. Defined.

Lemma read_datablock_hit_ignores_arguments_witness :
  exists bs' : BlockStore,
    ReadDatablock 9%N 1 0 0 0 read_once = Done block_one bs'
    /\ store bs' = store read_once
    /\ cache_find 1 (cacheitems (cache bs')) = Some block_one.
Proof.
  exact (read_datablock_hit_ignores_arguments read_once 1 block_one
           read_once_has_block_one 9%N 0 0 0).
Defined.

Lemma read_datablock_second_read_is_cached_witness :
  exists bs'' : BlockStore,
    ReadDatablock 9%N 1 0 0 0 read_once = Done block_one bs''
    /\ store bs'' = store (gbs committed)
    /\ cachemiss (cache bs'') = wrap64 (cachemiss (cache (gbs committed)) + 1)
    /\ cachehit (cache bs'') = wrap64 (cachehit (cache (gbs committed)) + 1).
Proof.
  refine (read_datablock_second_read_is_cached (gbs committed) read_once stream 1 2 3 4
            block_one eq_refl _ _ 9%N 0 0 0).
  - vm_compute. discriminate.
  - vm_compute. reflexivity.
Defined.

Lemma allocated_blocks_distinct_and_stamped_witness :
  exists (w' : Writer) (newc : list Coreblock) (newv : list Vectorblock),
    do_ops [DoAllocateCoreblock; DoAllocateVectorblock] opened_writer = Done tt w'
    /\ cblocks (gen w') = newc
    /\ vblocks (gen w') = newv
    /\ NoDup (map cb_Identifier newc ++ map vb_Identifier newv).
Proof.
  destruct (allocated_blocks_distinct_and_stamped
              [DoAllocateCoreblock; DoAllocateVectorblock] opened_writer []
              reference_base_is_u64 (run_nil alloc_init))
    as (w' & newc & newv & Hd & Hc & Hv & _ & _ & Hnd & _).
  - vm_compute. discriminate.
  - exists w', newc, newv. split; [exact Hd |]. split; [exact Hc |]. split; [exact Hv |].
    exact Hnd.
Defined.

Lemma near_top_base_is_u64 : is_u64 (RELOCATION_BASE (Externals := near_top)).
Proof. vm_compute. split; [discriminate | reflexivity]. Defined.

Lemma near_top_three_receives :
  alloc_run (Ext := near_top) (alloc_init (Ext := near_top)) three_receives
            after_three_receives.
Proof.
  exact (alloc_run_app (Ext := near_top) _ _ _ [_] [_; _]
           (receive_run (Ext := near_top) _)
           (alloc_run_app (Ext := near_top) _ _ _ [_] [_]
              (receive_run (Ext := near_top) _) (receive_run (Ext := near_top) _))).
Defined.

Lemma allocator_addresses_repeat_witness :
  three_receives !! 2%nat = three_receives !! 0%nat.
Proof.
  refine (allocator_addresses_repeat (Ext := near_top) three_receives after_three_receives 0
            near_top_base_is_u64 near_top_three_receives _).
  vm_compute. lia.
Defined.

Lemma existing_stream_numbers_continue_witness :
  next_pass_reports = [ {| pass_number := 3; pass_error := None; pass_version := 3 |} ].
Proof.
  refine (existing_stream_numbers_continue stream next_pass (gbs committed)
            (state_of next_pass_run) next_pass_reports _ _ _).
  - vm_compute. discriminate.
  - vm_compute. reflexivity.
  - vm_compute. reflexivity.
Defined.

Lemma write_pass_keeps_other_streams_witness :
  GetStreamVersion
    (store (state_of (write_pass stream
                        [DoAllocateVectorblock; DoUpdateRootAddr 0xFF00000000000000]
                        fresh_store))) 9%N
  = GetStreamVersion (store fresh_store) 9%N.
Proof.
  refine (proj1 (write_pass_keeps_other_streams stream
                   [DoAllocateVectorblock; DoUpdateRootAddr 0xFF00000000000000]
                   fresh_store 9%N _)).
  discriminate.
Defined.

End MoreRuns.
